(** * molpal: model factory and prediction evaluator

    A shallow embedding of
    - [molpal/models/__init__.py]   (the factories [model], [nn], [mpn]) and
    - [molpal/models/mpnn/evaluate.py] ([evaluate_predictions], [evaluate])
    together with the properties their specification states about them.

    Python lists that are mutated through several references are kept in an
    explicit store of list objects; exceptions are an explicit result type;
    calls to the logger, to [print] and to the metric function are recorded
    in a trace. *)

From Stdlib Require Import ZArith Lia.
From stdpp Require Import base option list strings gmap.

(** ** Exceptions and results *)

Inductive exn : Type :=
  | IndexError
  | KeyError
  | NotImplementedError (msg : string)
  | Exception (msg : string).

Inductive res (A : Type) : Type :=
  | Ok (a : A)
  | Raise (e : exn).
Arguments Ok {A} a.
Arguments Raise {A} e.

Definition res_bind {A B} (f : A → res B) (m : res A) : res B :=
  match m with
  | Ok a => f a
  | Raise e => Raise e
  end.

#[export] Instance res_mret : MRet res := λ A a, Ok a.
#[export] Instance res_mbind : MBind res := λ A B f m, res_bind f m.

(** [l[i]] for a list and an index that is not negative. *)
Definition index {A} (l : list A) (i : nat) : res A :=
  match l !! i with
  | Some x => Ok x
  | None => Raise IndexError
  end.

(** [for x in xs: s = body(x, s)], stopping at the first exception. *)
Fixpoint for_each {S : Type} (xs : list nat) (body : nat → S → res S) (s : S)
  : res S :=
  match xs with
  | [] => Ok s
  | x :: xs' => s' ← body x s; for_each xs' body s'
  end.

(** [range(n)]: empty when [n] is negative. *)
Definition range (n : Z) : list nat := seq 0 (Z.to_nat n).

(** [[x] * n]: [n] copies of the same element, none when [n] is negative. *)
Definition list_mul {A} (x : A) (n : Z) : list A := replicate (Z.to_nat n) x.

(** The double-quote character of the f-strings. *)
Definition dquote : string := String (Ascii.ascii_of_nat 34) EmptyString.

(** ** The prediction evaluator *)

Module Evaluate.

Abbreviation ref := nat (only parsing).
Abbreviation store val := (list (list val)) (only parsing).
Abbreviation target val := (option val) (only parsing).

Section evaluator.
(** Floats are kept abstract: [eq0 x] is Python's [x == 0], [truthy x] is
    [bool(x)] and [nan] is [float('nan')]. *)
Context {val Logger : Type}.
Variable eq0 : val → bool.
Variable truthy : val → bool.
Variable nan : val.

(** *** The store of list objects

    A [target] is a float or [None]; a [store] holds the list objects
    the evaluator allocates, a [ref] is the address of one of them. *)

(** [[]]: a fresh empty list object. *)
Definition alloc (l : list val) (σ : store val) : ref * store val :=
  (length σ, σ ++ [l]).

Definition deref (σ : store val) (r : ref) : list val := default [] (σ !! r).

(** [r.append(x)] *)
Definition append (r : ref) (x : val) (σ : store val) : store val :=
  alter (λ l, l ++ [x]) r σ.

(** *** Filtering (lines 31-40) *)

(** The body of the inner loop, for task [j] and example [i]. *)
Definition filter_step (preds : list (list val)) (targets : list (list (target val)))
    (valid_preds valid_targets : list ref) (j i : nat) (σ : store val) : res (store val) :=
  row ← index targets i;
  t ← index row j;
  match t with
  | None => Ok σ
  | Some tv =>
      rp ← index valid_preds j;
      prow ← index preds i;
      p ← index prow j;
      let σ1 := append rp p σ in
      rt ← index valid_targets j;
      Ok (append rt tv σ1)
  end.

Definition filter_loop (preds : list (list val)) (targets : list (list (target val)))
    (num_tasks : Z) (valid_preds valid_targets : list ref) (σ : store val) : res (store val) :=
  for_each (range num_tasks)
    (λ j, for_each (seq 0 (length preds))
            (filter_step preds targets valid_preds valid_targets j)) σ.

(** [valid_preds = [[]] * num_tasks; valid_targets = [[]] * num_tasks]
    followed by the two nested loops.  Each of the two lists holds
    [num_tasks] references to ONE list object. *)
Definition filter_phase (preds : list (list val)) (targets : list (list (target val)))
    (num_tasks : Z) : res (list ref * list ref * store val) :=
  let '(rp, σ0) := alloc [] [] in
  let valid_preds := list_mul rp num_tasks in
  let '(rt, σ1) := alloc [] σ0 in
  let valid_targets := list_mul rt num_tasks in
  σ ← filter_loop preds targets num_tasks valid_preds valid_targets σ1;
  Ok (valid_preds, valid_targets, σ).

(** *** Scoring (lines 43-65) *)

Inductive event : Type :=
  | LoggerInfo (l : Logger) (msg : string)
  | Print (msg : string)
  | MetricCall (targets preds : list val).

(** [info = logger.info if logger is not None else print] *)
Definition info (logger : option Logger) (msg : string) : event :=
  match logger with
  | Some l => LoggerInfo l msg
  | None => Print msg
  end.

Definition warn_targets : string :=
  "Warning: Found a task with targets all 0s or all 1s".
Definition warn_preds : string :=
  "Warning: Found a task with predictions all 0s or all 1s".

(** [all(x == 0 for x in xs) or all(xs)] *)
Definition degenerate (xs : list val) : bool :=
  forallb eq0 xs || forallb truthy xs.

Definition metric := list val → list val → res val.

(** The loop over [zip(valid_preds, valid_targets)]; [results] and the
    trace [tr] are the accumulators. *)
Fixpoint score_loop (metric_func : metric) (dataset_type : string)
    (logger : option Logger) (σ : store val) (pairs : list (ref * ref))
    (results : list val) (tr : list event) : list event * res (list val) :=
  match pairs with
  | [] => (tr, Ok results)
  | (rp, rt) :: rest =>
      let preds := deref σ rp in
      let targets := deref σ rt in
      let next := score_loop metric_func dataset_type logger σ rest in
      let score :=
        if bool_decide (length targets = 0) then next results tr
        else
          match metric_func targets preds with
          | Ok v => next (results ++ [v]) (tr ++ [MetricCall targets preds])
          | Raise e => (tr ++ [MetricCall targets preds], Raise e)
          end in
      if bool_decide (dataset_type = "classification") then
        if degenerate targets then
          next (results ++ [nan]) (tr ++ [info logger warn_targets])
        else if degenerate preds then
          next (results ++ [nan]) (tr ++ [info logger warn_preds])
        else score
      else score
  end.

Definition evaluate_predictions (preds : list (list val))
    (targets : list (list (target val))) (num_tasks : Z) (metric_func : metric)
    (dataset_type : string) (logger : option Logger)
  : list event * res (list val) :=
  if bool_decide (length preds = 0) then ([], Ok (list_mul nan num_tasks))
  else
    match filter_phase preds targets num_tasks with
    | Raise e => ([], Raise e)
    | Ok (valid_preds, valid_targets, σ) =>
        score_loop metric_func dataset_type logger σ
          (zip valid_preds valid_targets) [] []
    end.

(** *** The per-task valid pairs of the specification

    "For each task index, the subsequence of (prediction, target) pairs
    across examples where the target is not missing."  These definitions
    follow the specification's words; they are what [filter_phase] is
    compared with. *)

Definition missing (t : target val) : bool :=
  match t with
  | None => true
  | Some _ => false
  end.

Fixpoint column_pairs (j : nat) (P : list (list val)) (G : list (list (target val)))
  : list (val * val) :=
  match P, G with
  | prow :: P', grow :: G' =>
      match prow !! j, grow !! j with
      | Some p, Some (Some t) => (p, t) :: column_pairs j P' G'
      | _, _ => column_pairs j P' G'
      end
  | _, _ => []
  end.

Definition spec_valid_preds (j : nat) P G : list val := (column_pairs j P G).*1.
Definition spec_valid_targets (j : nat) P G : list val := (column_pairs j P G).*2.

(** The concatenation, over the given tasks in order, of their valid
    predictions and of their valid targets. *)
Definition all_valid_preds (tasks : list nat) (P : list (list val))
    (G : list (list (target val))) : list val :=
  concat ((λ k, spec_valid_preds k P G) <$> tasks).
Definition all_valid_targets (tasks : list nat) (P : list (list val))
    (G : list (list (target val))) : list val :=
  concat ((λ k, spec_valid_targets k P G) <$> tasks).

(** A matrix of [E] rows and [T] columns. *)
Definition shape {A} (E T : nat) (M : list (list A)) : Prop :=
  length M = E ∧ Forall (λ row, length row = T) M.

(** Every entry of the target matrix is [None]. *)
Definition all_missing (G : list (list (target val))) : bool :=
  forallb (forallb missing) G.

(** *** What the filtering loop reads

    The body for task [j] and example [i] reads [targets[i][j]] and, only
    when that is not [None], [preds[i][j]]: [readable] tells whether
    these reads are within bounds. *)
Definition readable (preds : list (list val)) (targets : list (list (target val)))
    (j i : nat) : bool :=
  match targets !! i with
  | Some row =>
      match row !! j with
      | Some (Some _) =>
          match preds !! i with
          | Some prow =>
              match prow !! j with
              | Some _ => true
              | None => false
              end
          | None => false
          end
      | Some None => true
      | None => false
      end
  | None => false
  end.

(** *** The scoring loop in closed form

    What the loop of lines 44-63 amounts to when each of its [n] rounds
    sees the same predictions [ps] and the same targets [ts]. *)
Definition score_shared (metric_func : metric) (dataset_type : string)
    (logger : option Logger) (n : nat) (ps ts : list val)
  : list event * res (list val) :=
  if bool_decide (dataset_type = "classification") && degenerate ts then
    (replicate n (info logger warn_targets), Ok (replicate n nan))
  else if bool_decide (dataset_type = "classification") && degenerate ps then
    (replicate n (info logger warn_preds), Ok (replicate n nan))
  else if bool_decide (length ts = 0) then ([], Ok [])
  else
    match n with
    | 0 => ([], Ok [])
    | S _ =>
        match metric_func ts ps with
        | Ok v => (replicate n (MetricCall ts ps), Ok (replicate n v))
        | Raise e => ([MetricCall ts ps], Raise e)
        end
    end.

(** *** The evaluation orchestrator (lines 67-95) *)

Context {Model Batch Graph Scaler : Type}.

(** chemprop's [batch.batch_graph()], the model's forward pass and the
    scaler's [inverse_transform] are external; each may raise. *)
Variable batch_graph : Batch → res Graph.
Variable forward : Model → Graph → res (list (list val)).
Variable inverse_transform : Scaler → list (list val) → res (list (list val)).

Record MoleculeDataLoader : Type := {
  batches : list Batch;
  targets : list (list (target val));
}.

(** The generator [batch_graphs]: one pending conversion per batch, run
    when the consumer asks for the next item. *)
Definition batch_graphs (data_loader : MoleculeDataLoader) : list (res Graph) :=
  batch_graph <$> batches data_loader.

(** Modelled from the spec: [predict] of [molpal/models/mpnn/predict.py],
    which is not part of the sources at hand.  "Produces predictions by
    applying the model to each batch in sequence [...], optionally
    un-scaling raw outputs via the rescaling transform"; "any failure in
    batch-to-input conversion or model invocation propagates to the caller
    uncaught." *)
Fixpoint predict_loop (model : Model) (graphs : list (res Graph))
    (scaler : option Scaler) (acc : list (list val)) : res (list (list val)) :=
  match graphs with
  | [] => Ok acc
  | g :: graphs' =>
      graph ← g;
      raw ← forward model graph;
      out ← match scaler with
            | Some sc => inverse_transform sc raw
            | None => Ok raw
            end;
      predict_loop model graphs' scaler (acc ++ out)
  end.

(** Modelled from the spec: the entry point of the absent [predict], the
    loop above started with no predictions. *)
Definition predict (model : Model) (graphs : list (res Graph))
    (scaler : option Scaler) : res (list (list val)) :=
  predict_loop model graphs scaler [].

Definition evaluate (model : Model) (data_loader : MoleculeDataLoader)
    (num_tasks : Z) (metric_func : metric) (dataset_type : string)
    (scaler : option Scaler) (logger : option Logger)
  : list event * res (list val) :=
  match predict model (batch_graphs data_loader) scaler with
  | Raise e => ([], Raise e)
  | Ok preds =>
      evaluate_predictions preds (targets data_loader) num_tasks
        metric_func dataset_type logger
  end.

End evaluator.

End Evaluate.

(** ** A concrete reading of Python floats, for the worked examples

    Finite floats are dyadic: [Finite m e] is [m * 2^e]. *)

Inductive pyfloat : Type :=
  | Finite (m e : Z)
  | Inf (negative : bool)
  | NaN.

(** [x == 0] *)
Definition float_eq0 (x : pyfloat) : bool :=
  match x with
  | Finite m _ => (m =? 0)%Z
  | _ => false
  end.

(** [bool(x)] *)
Definition float_truthy (x : pyfloat) : bool := negb (float_eq0 x).

Definition f1_0 : pyfloat := Finite 1 0.
Definition f2_0 : pyfloat := Finite 1 1.
Definition f0_0 : pyfloat := Finite 0 0.
Definition f0_5 : pyfloat := Finite 1 (-1).

(** A metric for the worked examples: the number of targets it is given. *)
Definition count_metric (ts ps : list pyfloat) : res pyfloat :=
  Ok (Finite (Z.of_nat (length ts)) 0).

(** ** The model factory *)

Module Factory.

Inductive model_class : Type :=
  | RFModel | GPModel
  | NNModel | NNDropoutModel | NNEnsembleModel | NNTwoOutputModel
  | MPNModel | MPNDropoutModel | MPNTwoOutputModel.



Section factory.
(** Values of the keyword arguments other than [conf_method]. *)
Context {V : Type}.

(** The keyword dictionary: [conf_method] is absent, [None] or a string
    ([Optional[str]]); the other keywords are an arbitrary dictionary. *)
Record kwargs : Type := {
  kw_conf_method : option (option string);
  kw_other : gmap string V;
}.

Record instance : Type := {
  class_of : model_class;
  init_kwargs : kwargs;
}.

(** The classes are defined in [sklmodels], [nnmodels] and [mpnmodels];
    what their [__init__] does with the keywords is a parameter: [None]
    when it completes, [Some e] when it raises [e]. *)
Variable init : model_class → kwargs → option exn.

(** Calling the class [cls] with the keywords [kw]. *)
Definition construct (cls : model_class) (kw : kwargs) : res instance :=
  match init cls kw with
  | None => Ok {| class_of := cls; init_kwargs := kw |}
  | Some e => Raise e
  end.

(** [d[k]] *)
Definition getitem {A} (d : gmap string A) (k : string) : res A :=
  match d !! k with
  | Some x => Ok x
  | None => Raise KeyError
  end.

(** [try: body except KeyError: raise NotImplementedError(msg)] *)
Definition except_KeyError {A} (body : res A) (msg : string) : res A :=
  match body with
  | Raise KeyError => Raise (NotImplementedError msg)
  | r => r
  end.

Definition quoted (s : string) : string := dquote +:+ s +:+ dquote.

Definition nn_table : gmap string model_class :=
  <["dropout" := NNDropoutModel]> (
  <["ensemble" := NNEnsembleModel]> (
  <["twooutput" := NNTwoOutputModel]> (
  <["mve" := NNTwoOutputModel]> (
  <["none" := NNModel]> ∅)))).

Definition mpn_table : gmap string model_class :=
  <["dropout" := MPNDropoutModel]> (
  <["twooutput" := MPNTwoOutputModel]> (
  <["mve" := MPNTwoOutputModel]> (
  <["none" := MPNModel]> ∅))).

Definition nn (conf_method : option string) (kw : gmap string V) : res instance :=
  match conf_method with
  | None => construct NNModel {| kw_conf_method := None; kw_other := kw |}
  | Some c =>
      except_KeyError
        (cls ← getitem nn_table c;
         construct cls {| kw_conf_method := Some (Some c); kw_other := kw |})
        ("Unrecognized NN confidence method: " +:+ quoted c)
  end.

Definition mpn (conf_method : option string) (kw : gmap string V) : res instance :=
  match conf_method with
  | None => construct MPNModel {| kw_conf_method := None; kw_other := kw |}
  | Some c =>
      except_KeyError
        (cls ← getitem mpn_table c;
         construct cls {| kw_conf_method := Some (Some c); kw_other := kw |})
        ("Unrecognized MPN confidence method: " +:+ quoted c)
  end.

(** Calling [f], declared with [conf_method=None] and a keyword
    dictionary, on an unpacked keyword dictionary. *)
Definition call_with_kwargs (f : option string → gmap string V → res instance)
    (kw : kwargs) : res instance :=
  f (default None (kw_conf_method kw)) (kw_other kw).

Definition model (model : string) (kw : kwargs) : res instance :=
  if bool_decide (model = "rf") then construct RFModel kw
  else if bool_decide (model = "gp") then construct GPModel kw
  else if bool_decide (model = "nn") then call_with_kwargs nn kw
  else if bool_decide (model = "mpn") then call_with_kwargs mpn kw
  else Raise (NotImplementedError ("Unrecognized model: " +:+ quoted model)).

(** *** The configuration table of the specification

    "[model] in {rf, gp, nn, mpn}"; "[conf_method] in {None, dropout,
    ensemble (nn only), twooutput, mve, none}".  These follow the
    specification's words and are what the factories are compared with. *)




(** The keywords a variant's class is called with: [conf_method] is passed
    on only when it was given. *)
Definition passed_kwargs (conf_method : option string) (kw : gmap string V)
  : kwargs :=
  {| kw_conf_method := Some <$> conf_method; kw_other := kw |}.


End factory.

End Factory.

(** * Properties *)

(** ** Loops and lists *)

Lemma for_each_app {S : Type} (xs ys : list nat) (body : nat → S → res S) (s : S) :
  for_each (xs ++ ys) body s = (s' ← for_each xs body s; for_each ys body s').
Proof.
  revert s. induction xs as [|x xs IH]; intros s; simpl; [done|].
  destruct (body x s) as [s'|e]; simpl; [apply IH | done].
Qed.

Lemma drop_cons_inv {A} (l : list A) (s : nat) (x : A) (l' : list A) :
  drop s l = x :: l' → l !! s = Some x ∧ drop (S s) l = l'.
Proof.
  intros Hd.
  assert (Hx : l !! s = Some x).
  { rewrite <- (Nat.add_0_r s), <- lookup_drop, Hd. done. }
  split; [done|].
  rewrite (drop_S _ _ _ Hx) in Hd. by inversion Hd.
Qed.

Lemma index_Some {A} (l : list A) (i : nat) (x : A) :
  l !! i = Some x → index l i = Ok x.
Proof. unfold index. by intros ->. Qed.

Lemma list_mul_length {A} (x : A) (n : Z) : length (list_mul x n) = Z.to_nat n.
Proof. apply length_replicate. Qed.

Lemma list_mul_elem {A} (x y : A) (n : Z) : y ∈ list_mul x n → y = x.
Proof. unfold list_mul. intros [-> _]%elem_of_replicate. done. Qed.

Module EvaluateFacts.
Import Evaluate.

Section filtering.
Context {val : Type}.
Implicit Types (P : list (list val)) (G : list (list (target val))).
Implicit Types (a b : list val).

(** The loop body at an example and a task that are in range: nothing
    happens when the target is missing, else the prediction and the
    target are appended to the lists the two references point to. *)
Lemma filter_step_in_range P G (vp vt : list ref) (j i : nat) (σ : store val)
    prow grow p t (rp rt : ref) :
  P !! i = Some prow → G !! i = Some grow →
  prow !! j = Some p → grow !! j = Some t →
  vp !! j = Some rp → vt !! j = Some rt →
  filter_step P G vp vt j i σ
  = Ok (match t with
        | None => σ
        | Some tv => append rt tv (append rp p σ)
        end).
Proof.
  intros HP HG Hp Ht Hrp Hrt. unfold filter_step.
  rewrite (index_Some _ _ _ HG). cbn [mbind res_mbind res_bind].
  rewrite (index_Some _ _ _ Ht). cbn [mbind res_mbind res_bind].
  destruct t as [tv|]; [|done].
  rewrite (index_Some _ _ _ Hrp). cbn [mbind res_mbind res_bind].
  rewrite (index_Some _ _ _ HP). cbn [mbind res_mbind res_bind].
  rewrite (index_Some _ _ _ Hp). cbn [mbind res_mbind res_bind].
  rewrite (index_Some _ _ _ Hrt). done.
Qed.

(** One pass of the inner loop over the examples [s, s+k): with both
    reference lists pointing at the cells 0 and 1, task [j]'s valid pairs
    are appended to those two cells. *)
Lemma filter_inner_shared P G (n j : nat) :
  j < n →
  ∀ k s Ps Gs a b,
    drop s P = Ps → drop s G = Gs →
    length Ps = k → length Gs = k →
    Forall (λ row, j < length row) Ps →
    Forall (λ row, j < length row) Gs →
    for_each (seq s k)
      (filter_step P G (replicate n 0) (replicate n 1) j) [a; b]
    = Ok [a ++ (column_pairs j Ps Gs).*1; b ++ (column_pairs j Ps Gs).*2].
Proof.
  intros Hj. induction k as [|k IH]; intros s Ps Gs a b HP HG HlP HlG HrP HrG.
  - destruct Ps; [|done]. simpl. by rewrite !app_nil_r.
  - destruct Ps as [|prow Ps']; [done|]. destruct Gs as [|grow Gs']; [done|].
    apply drop_cons_inv in HP as [HPs HP']. apply drop_cons_inv in HG as [HGs HG'].
    inversion HrP as [|? ? Hprow HrP']; subst.
    inversion HrG as [|? ? Hgrow HrG']; subst.
    destruct (lookup_lt_is_Some_2 prow j Hprow) as [p Hp].
    destruct (lookup_lt_is_Some_2 grow j Hgrow) as [t Ht].
    simpl in HlP, HlG.
    change (seq s (S k)) with (s :: seq (S s) k). cbn [for_each].
    rewrite (filter_step_in_range P G _ _ j s [a; b] prow grow p t 0 1);
      try done; try (by apply lookup_replicate_2).
    cbn [mbind res_mbind res_bind column_pairs]. rewrite Hp, Ht.
    destruct t as [tv|].
    + cbn [append alter list_alter].
      rewrite (IH (S s) (drop (S s) P) (drop (S s) G)); try done; try lia.
      cbn [fmap list_fmap fst snd]. by rewrite <- !app_assoc.
    + apply (IH (S s) (drop (S s) P) (drop (S s) G)); try done; lia.
Qed.

Lemma filter_outer_shared P G (E T : nat) :
  shape E T P → shape E T G →
  ∀ k s a b,
    s + k ≤ T →
    for_each (seq s k)
      (λ j, for_each (seq 0 (length P))
              (filter_step P G (replicate T 0) (replicate T 1) j)) [a; b]
    = Ok [a ++ all_valid_preds (seq s k) P G;
          b ++ all_valid_targets (seq s k) P G].
Proof.
  intros [HEP HrP] [HEG HrG].
  induction k as [|k IH]; intros s a b Hsk.
  - simpl. by rewrite !app_nil_r.
  - cbn [seq for_each].
    rewrite (filter_inner_shared P G T s ltac:(lia) (length P) 0 P G a b);
      try done; try lia.
    + cbn [mbind res_mbind res_bind]. rewrite IH by lia.
      unfold all_valid_preds, all_valid_targets.
      cbn [fmap list_fmap concat]. by rewrite <- !app_assoc.
    + eapply Forall_impl; [exact HrP|]. simpl. intros; lia.
    + eapply Forall_impl; [exact HrG|]. simpl. intros; lia.
Qed.

(** The filtering phase on well-shaped matrices. *)
Lemma filter_phase_shared P G (E : nat) (num_tasks : Z) :
  shape E (Z.to_nat num_tasks) P → shape E (Z.to_nat num_tasks) G →
  filter_phase P G num_tasks
  = Ok (list_mul 0 num_tasks, list_mul 1 num_tasks,
        [all_valid_preds (range num_tasks) P G;
         all_valid_targets (range num_tasks) P G]).
Proof.
  intros HP HG. unfold filter_phase, alloc. cbn [length app].
  unfold filter_loop, range, list_mul.
  rewrite (filter_outer_shared P G E (Z.to_nat num_tasks) HP HG
             (Z.to_nat num_tasks) 0 [] []) by lia.
  done.
Qed.

(** With a single task there is nothing to share: the two lists are
    that task's valid predictions and valid targets. *)
Lemma filter_phase_single_task P G (E : nat) :
  shape E 1 P → shape E 1 G →
  filter_phase P G 1
  = Ok ([0], [1], [spec_valid_preds 0 P G; spec_valid_targets 0 P G]).
Proof.
  intros HP HG. rewrite (filter_phase_shared P G E 1 HP HG).
  unfold all_valid_preds, all_valid_targets. simpl. by rewrite !app_nil_r.
Qed.

End filtering.

(** *** Missing entries and the valid pairs *)

Section missing_entries.
Context {val : Type}.
Implicit Types (P : list (list val)) (G : list (list (target val))).

Lemma row_missing_lookup (row : list (target val)) (j : nat) (t : target val) :
  forallb missing row = true → row !! j = Some t → t = None.
Proof.
  revert j. induction row as [|x row IH]; intros j Hall Hj; [done|].
  simpl in Hall. apply andb_true_iff in Hall as [Hx Hrow].
  destruct j as [|j]; simpl in Hj.
  - inversion Hj; subst. by destruct t.
  - by apply (IH j).
Qed.

Lemma row_valid_entry (row : list (target val)) :
  forallb missing row = false → ∃ j t, row !! j = Some (Some t).
Proof.
  induction row as [|x row IH]; intros Hall; [done|].
  simpl in Hall. apply andb_false_iff in Hall as [Hx|Hrow].
  - destruct x as [t|]; [|done]. by exists 0, t.
  - destruct (IH Hrow) as (j & t & Hj). by exists (S j), t.
Qed.

Lemma column_pairs_all_missing (j : nat) P G :
  all_missing G = true → column_pairs j P G = [].
Proof.
  revert G. induction P as [|prow P IH]; intros G Hall; [done|].
  destruct G as [|grow G]; [done|].
  unfold all_missing in Hall. simpl in Hall.
  apply andb_true_iff in Hall as [Hrow Hrest]. simpl.
  destruct (prow !! j) as [p|]; [|by apply IH].
  destruct (grow !! j) as [t|] eqn:Ht; [|by apply IH].
  rewrite (row_missing_lookup grow j t Hrow Ht). by apply IH.
Qed.

Lemma all_missing_valid_entry G :
  all_missing G = false →
  ∃ i grow j t, G !! i = Some grow ∧ grow !! j = Some (Some t).
Proof.
  induction G as [|grow G IH]; intros Hall; [done|].
  unfold all_missing in Hall. simpl in Hall.
  apply andb_false_iff in Hall as [Hrow|Hrest].
  - destruct (row_valid_entry grow Hrow) as (j & t & Hj).
    by exists 0, grow, j, t.
  - destruct (IH Hrest) as (i & row & j & t & Hi & Hj).
    by exists (S i), row, j, t.
Qed.

Lemma column_pairs_elem (j : nat) P G (i : nat) prow grow (p t : val) :
  P !! i = Some prow → G !! i = Some grow →
  prow !! j = Some p → grow !! j = Some (Some t) →
  (p, t) ∈ column_pairs j P G.
Proof.
  revert G i. induction P as [|prow0 P IH]; intros G i HP HG Hp Ht; [done|].
  destruct G as [|grow0 G]; [done|].
  destruct i as [|i]; simpl in HP, HG.
  - inversion HP; inversion HG; subst. simpl. rewrite Hp, Ht. left.
  - pose proof (IH G i HP HG Hp Ht) as Hin. simpl.
    destruct (prow0 !! j); [|done].
    destruct (grow0 !! j) as [[t0|]|]; [by right|done|done].
Qed.

Lemma concat_nonempty {A} (ls : list (list A)) (l : list A) :
  l ∈ ls → l ≠ [] → concat ls ≠ [].
Proof.
  induction 1 as [l ls|l l0 ls Hin IH]; intros Hne; simpl.
  - by destruct l.
  - destruct l0; [by apply IH | done].
Qed.

(** On well-shaped matrices, the concatenated valid targets are empty
    exactly when every entry is missing. *)
Lemma all_valid_targets_nil (tasks : list nat) P G :
  all_missing G = true → all_valid_targets tasks P G = [].
Proof.
  intros Hall. unfold all_valid_targets.
  induction tasks as [|k ks IH]; [done|].
  rewrite fmap_cons. cbn [concat]. rewrite IH.
  unfold spec_valid_targets.
  by rewrite (column_pairs_all_missing k P G Hall).
Qed.

Lemma all_valid_preds_nil (tasks : list nat) P G :
  all_missing G = true → all_valid_preds tasks P G = [].
Proof.
  intros Hall. unfold all_valid_preds.
  induction tasks as [|k ks IH]; [done|].
  rewrite fmap_cons. cbn [concat]. rewrite IH.
  unfold spec_valid_preds.
  by rewrite (column_pairs_all_missing k P G Hall).
Qed.

Lemma all_valid_targets_nonempty (E T : nat) P G :
  shape E T P → shape E T G → all_missing G = false →
  all_valid_targets (seq 0 T) P G ≠ [].
Proof.
  intros [HEP HrP] [HEG HrG] Hsome.
  destruct (all_missing_valid_entry G Hsome) as (i & grow & j & t & Hi & Hj).
  assert (Hlen : length grow = T) by apply (Forall_lookup_1 _ _ _ _ HrG Hi).
  assert (HjT : j < T) by (rewrite <- Hlen; by eapply lookup_lt_Some).
  destruct (lookup_lt_is_Some_2 P i) as [prow Hprow].
  { rewrite HEP, <- HEG. by eapply lookup_lt_Some. }
  destruct (lookup_lt_is_Some_2 prow j) as [p Hp].
  { by rewrite (Forall_lookup_1 _ _ _ _ HrP Hprow). }
  pose proof (column_pairs_elem j P G i prow grow p t Hprow Hi Hp Hj) as Hin.
  apply (concat_nonempty _ (spec_valid_targets j P G)).
  - apply (list_elem_of_fmap_2 (λ k, spec_valid_targets k P G)).
    apply elem_of_seq. lia.
  - unfold spec_valid_targets. intros Hnil.
    apply (list_elem_of_fmap_2 snd) in Hin. rewrite Hnil in Hin.
    by apply not_elem_of_nil in Hin.
Qed.

End missing_entries.

(** *** The scoring loop when all tasks share one pair of lists *)

Section scoring.
Context {val Logger : Type}.
Variable eq0 truthy : val → bool.
Variable nan : val.
Implicit Types (σ : store val) (metric_func : @metric val).
Implicit Types (logger : option Logger) (tr : list (@event val Logger)).

Local Abbreviation score_loop := (score_loop eq0 truthy nan).
Local Abbreviation degenerate := (degenerate eq0 truthy).

Lemma score_loop_regression_empty metric_func ds logger σ (rp rt : ref) :
  ds ≠ "classification" → deref σ rt = [] →
  ∀ n results tr,
    score_loop metric_func ds logger σ (replicate n (rp, rt)) results tr
    = (tr, Ok results).
Proof.
  intros Hds Hrt. induction n as [|n IH]; intros results tr; [done|].
  cbn [replicate score_loop]. rewrite (bool_decide_eq_false_2 _ Hds), Hrt.
  simpl. apply IH.
Qed.

Lemma score_loop_regression_scored metric_func ds logger σ (rp rt : ref) v :
  ds ≠ "classification" → deref σ rt ≠ [] →
  metric_func (deref σ rt) (deref σ rp) = Ok v →
  ∀ n results tr,
    score_loop metric_func ds logger σ (replicate n (rp, rt)) results tr
    = (tr ++ replicate n (MetricCall (deref σ rt) (deref σ rp)),
       Ok (results ++ replicate n v)).
Proof.
  intros Hds Hrt Hv. induction n as [|n IH]; intros results tr.
  - simpl. by rewrite !app_nil_r.
  - cbn [replicate score_loop]. rewrite (bool_decide_eq_false_2 _ Hds).
    rewrite bool_decide_eq_false_2 by (by destruct (deref σ rt)).
    rewrite Hv, IH. by rewrite <- !app_assoc.
Qed.

Lemma score_loop_regression_raises metric_func ds logger σ (rp rt : ref) e :
  ds ≠ "classification" → deref σ rt ≠ [] →
  metric_func (deref σ rt) (deref σ rp) = Raise e →
  ∀ n results tr,
    0 < n →
    score_loop metric_func ds logger σ (replicate n (rp, rt)) results tr
    = (tr ++ [MetricCall (deref σ rt) (deref σ rp)], Raise e).
Proof.
  intros Hds Hrt He n results tr Hn. destruct n as [|n]; [lia|].
  cbn [replicate score_loop]. rewrite (bool_decide_eq_false_2 _ Hds).
  rewrite bool_decide_eq_false_2 by (by destruct (deref σ rt)).
  by rewrite He.
Qed.

Lemma score_loop_degenerate_targets metric_func logger σ (rp rt : ref) :
  degenerate (deref σ rt) = true →
  ∀ n results tr,
    score_loop metric_func "classification" logger σ
      (replicate n (rp, rt)) results tr
    = (tr ++ replicate n (info logger warn_targets),
       Ok (results ++ replicate n nan)).
Proof.
  intros Hdeg. induction n as [|n IH]; intros results tr.
  - simpl. by rewrite !app_nil_r.
  - cbn [replicate score_loop]. rewrite bool_decide_eq_true_2 by done.
    rewrite Hdeg, IH. by rewrite <- !app_assoc.
Qed.

(** What the filtering phase returns, whatever the shapes: both lists
    of references are constant. *)
Lemma filter_phase_refs (P : list (list val)) (G : list (list (target val)))
    (num_tasks : Z) vp vt σ :
  filter_phase P G num_tasks = Ok (vp, vt, σ) →
  vp = list_mul 0 num_tasks ∧ vt = list_mul 1 num_tasks.
Proof.
  unfold filter_phase, alloc. cbn [length app].
  destruct (filter_loop _ _ _ _ _ _) as [σ'|e]; simpl; [|done].
  intros Heq. by inversion Heq.
Qed.

End scoring.

(** *** The evaluator on arbitrary inputs *)

Section evaluator_claims.
Context {val Logger : Type}.
Variable eq0 truthy : val → bool.
Variable nan : val.
Implicit Types (P : list (list val)) (G : list (list (target val))).
Implicit Types (metric_func : @metric val) (logger : option Logger).

Local Abbreviation evaluate_predictions := (evaluate_predictions eq0 truthy nan).

Lemma evaluate_predictions_nonempty P G (num_tasks : Z) metric_func ds logger :
  P ≠ [] →
  evaluate_predictions P G num_tasks metric_func ds logger
  = match filter_phase P G num_tasks with
    | Raise e => ([], Raise e)
    | Ok (vp, vt, σ) =>
        score_loop eq0 truthy nan metric_func ds logger σ (zip vp vt) [] []
    end.
Proof.
  intros HP. unfold Evaluate.evaluate_predictions.
  rewrite bool_decide_eq_false_2; [done|]. by destruct P.
Qed.

Lemma zip_list_mul (a b : ref) (n : Z) :
  zip (list_mul a n) (list_mul b n) = replicate (Z.to_nat n) (a, b).
Proof. apply zip_with_replicate. Qed.

(** C2. With zero examples the evaluator returns [num_tasks]
    not-a-number sentinels at once: whatever the targets, the metric, the
    dataset type and the logger are, the result is a list of exactly
    [num_tasks] elements (none when [num_tasks] is negative), each of them
    the sentinel; nothing is logged, the metric is not called and the
    targets are not read. *)
Theorem evaluate_predictions_no_examples G (num_tasks : Z) metric_func ds logger :
  ∃ results,
    evaluate_predictions [] G num_tasks metric_func ds logger = ([], Ok results)
    ∧ Z.of_nat (length results) = Z.max 0 num_tasks
    ∧ ∀ x, x ∈ results → x = nan.
Proof.
  exists (list_mul nan num_tasks). split; [done|]. split.
  - rewrite list_mul_length. lia.
  - intros x. apply list_mul_elem.
Qed.

(** C10. Both reference lists hold [num_tasks] references to one list
    object each.  On matrices of [E >= 1] rows and [num_tasks >= 1] columns
    the filtering phase therefore leaves, behind every [valid_preds[j]], the
    same list: the concatenation over the tasks [0 .. num_tasks-1], in
    order, of the non-missing predictions of that column (and likewise for
    the targets).  For a dataset type other than classification the result
    is then the empty list when every target is missing, and otherwise
    [num_tasks] copies of the one score the metric gives on the
    concatenated lists (or the metric's exception): its length is 0 or
    [num_tasks], never in between. *)
Theorem shared_lists_all_or_nothing P G (E : nat) (num_tasks : Z)
    metric_func ds logger :
  (1 ≤ num_tasks)%Z → 1 ≤ E →
  shape E (Z.to_nat num_tasks) P → shape E (Z.to_nat num_tasks) G →
  let T := Z.to_nat num_tasks in
  let allP := all_valid_preds (range num_tasks) P G in
  let allT := all_valid_targets (range num_tasks) P G in
  let out := (evaluate_predictions P G num_tasks metric_func ds logger).2 in
  (∃ vp vt σ (rp rt : ref),
      filter_phase P G num_tasks = Ok (vp, vt, σ)
      ∧ length vp = T ∧ length vt = T
      ∧ (∀ j, j < T → vp !! j = Some rp ∧ vt !! j = Some rt)
      ∧ deref σ rp = allP ∧ deref σ rt = allT)
  ∧ (ds ≠ "classification" →
      (all_missing G = true → out = Ok [])
      ∧ (all_missing G = false →
           out = (v ← metric_func allT allP; Ok (replicate T v)))
      ∧ (∀ results, out = Ok results →
           length results = if all_missing G then 0 else T)).
Proof.
  intros HT HE HP HG T allP allT out.
  pose proof (filter_phase_shared P G E num_tasks HP HG) as Hfilter.
  assert (HPne : P ≠ []).
  { destruct HP as [HlenP _]. destruct P; [simpl in HlenP; lia | done]. }
  split.
  - exists (list_mul 0 num_tasks), (list_mul 1 num_tasks),
      [allP; allT], 0, 1.
    split; [exact Hfilter|]. rewrite !list_mul_length.
    repeat split; try done; by apply lookup_replicate_2.
  - intros Hds.
    assert (Hout : out =
      (score_loop eq0 truthy nan metric_func ds logger [allP; allT]
         (replicate T (0, 1)) [] []).2).
    { subst out. rewrite evaluate_predictions_nonempty by done.
      rewrite Hfilter. by rewrite zip_list_mul. }
    assert (Hcases :
      (all_missing G = true → out = Ok [])
      ∧ (all_missing G = false →
           out = (v ← metric_func allT allP; Ok (replicate T v)))).
    { split; intros Hall; rewrite Hout.
      - rewrite score_loop_regression_empty; try done.
        apply (all_valid_targets_nil (range num_tasks) P G Hall).
      - pose proof (all_valid_targets_nonempty E T P G HP HG Hall) as Hne.
        destruct (metric_func allT allP) as [v|e] eqn:Hm.
        + rewrite (score_loop_regression_scored eq0 truthy nan
                     metric_func ds logger [allP; allT] 0 1 v);
            [done | done | exact Hne | exact Hm].
        + rewrite (score_loop_regression_raises eq0 truthy nan
                     metric_func ds logger [allP; allT] 0 1 e);
            [done | done | exact Hne | exact Hm | subst T; lia]. }
    destruct Hcases as [Hnone Hsome]. repeat split; try done.
    intros results Hres. destruct (all_missing G) eqn:Hall.
    + rewrite Hnone in Hres by done. by inversion Hres.
    + rewrite Hsome in Hres by done.
      destruct (metric_func allT allP) as [v|e]; simpl in Hres; [|done].
      inversion Hres. apply length_replicate.
Qed.

(** The shared target list and the classification guard.  When the one
    list all tasks refer to is empty after the filtering phase, the
    all-zeros test holds vacuously and comes before the test for
    emptiness: every slot is the sentinel and the metric is never called.
    On well-shaped matrices this is the case exactly when every entry of
    the target matrix is missing; it says nothing of a task without valid
    targets beside a task that has some. *)
Theorem classification_empty_is_nan P G (num_tasks : Z) metric_func logger :
  P ≠ [] →
  (∀ vp vt σ (j : nat) (rt : ref),
      filter_phase P G num_tasks = Ok (vp, vt, σ) →
      vt !! j = Some rt → deref σ rt = [] →
      ∃ tr results,
        evaluate_predictions P G num_tasks metric_func "classification" logger
        = (tr, Ok results)
        ∧ length results = Z.to_nat num_tasks
        ∧ results !! j = Some nan
        ∧ ∀ ts ps, MetricCall ts ps ∉ tr)
  ∧ (∀ E, shape E (Z.to_nat num_tasks) P → shape E (Z.to_nat num_tasks) G →
      all_missing G = true →
      ∃ results,
        evaluate_predictions P G num_tasks metric_func "classification" logger
        = (replicate (Z.to_nat num_tasks) (info logger warn_targets), Ok results)
        ∧ results = replicate (Z.to_nat num_tasks) nan
        ∧ ((1 ≤ num_tasks)%Z → results ≠ [])).
Proof.
  intros HPne. split.
  - intros vp vt σ j rt Hfilter Hj Hempty.
    destruct (filter_phase_refs P G num_tasks vp vt σ Hfilter) as [-> ->].
    apply lookup_replicate in Hj as [-> Hj].
    exists (replicate (Z.to_nat num_tasks) (info logger warn_targets)),
      (replicate (Z.to_nat num_tasks) nan).
    rewrite evaluate_predictions_nonempty by done.
    rewrite Hfilter, zip_list_mul.
    rewrite score_loop_degenerate_targets by (by rewrite Hempty).
    repeat split.
    + apply length_replicate.
    + by apply lookup_replicate_2.
    + intros ts ps [Heq _]%elem_of_replicate. by destruct logger.
  - intros E HP HG Hall.
    exists (replicate (Z.to_nat num_tasks) nan).
    rewrite evaluate_predictions_nonempty by done.
    rewrite (filter_phase_shared P G E num_tasks HP HG), zip_list_mul.
    rewrite score_loop_degenerate_targets.
    + split; [done|]. split; [done|]. intros HT.
      destruct (Z.to_nat num_tasks) eqn:Hn; [lia | done].
    + change (deref _ 1) with (all_valid_targets (range num_tasks) P G).
      by rewrite (all_valid_targets_nil (range num_tasks) P G Hall).
Qed.

End evaluator_claims.

(** *** The orchestrator *)

Section orchestrator.
Context {val Logger Model Batch Graph Scaler : Type}.
Variable eq0 truthy : val → bool.
Variable nan : val.
Variable batch_graph : Batch → res Graph.
Variable forward : Model → Graph → res (list (list val)).
Variable inverse_transform : Scaler → list (list val) → res (list (list val)).
Implicit Types (model : Model) (data_loader : @MoleculeDataLoader val Batch).
Implicit Types (scaler : option Scaler) (logger : option Logger).

Local Abbreviation predict := (predict forward inverse_transform).
Local Abbreviation predict_loop := (predict_loop forward inverse_transform).
Local Abbreviation evaluate :=
  (evaluate eq0 truthy nan batch_graph forward inverse_transform).

Lemma predict_loop_app model (xs ys : list (res Graph)) scaler acc :
  predict_loop model (xs ++ ys) scaler acc
  = (acc' ← predict_loop model xs scaler acc; predict_loop model ys scaler acc').
Proof.
  revert acc. induction xs as [|g xs IH]; intros acc; [done|].
  cbn [app Evaluate.predict_loop].
  destruct g as [graph|e]; [|done]. cbn [mbind res_mbind res_bind].
  destruct (forward model graph) as [raw|e]; [|done].
  cbn [mbind res_mbind res_bind].
  destruct (match scaler with
            | Some sc => inverse_transform sc raw
            | None => Ok raw
            end) as [out|e]; [|done].
  cbn [mbind res_mbind res_bind]. apply IH.
Qed.

(** Without a scaler and without failures the predictions are the
    outputs of the model on the batches, one after the other. *)
Lemma predict_in_sequence model (bs : list Batch) (outs : list (list (list val))) acc :
  Forall2 (λ b out, ∃ g, batch_graph b = Ok g ∧ forward model g = Ok out) bs outs →
  predict_loop model (batch_graph <$> bs) None acc = Ok (acc ++ concat outs).
Proof.
  intros Hall. revert acc.
  induction Hall as [|b out bs outs (g & Hg & Hout) _ IH]; intros acc.
  - simpl. by rewrite app_nil_r.
  - rewrite fmap_cons. cbn [Evaluate.predict_loop concat]. rewrite Hg.
    cbn [mbind res_mbind res_bind]. rewrite Hout.
    cbn [mbind res_mbind res_bind]. rewrite IH. by rewrite <- app_assoc.
Qed.

(** A failure at batch [k], after the batches before it went through. *)
Lemma predict_fails_at model (bs : list Batch) scaler (k : nat) (b : Batch)
    (sofar : list (list val)) (e : exn) :
  bs !! k = Some b →
  predict model (batch_graph <$> take k bs) scaler = Ok sofar →
  (batch_graph b = Raise e
   ∨ ∃ g, batch_graph b = Ok g ∧ forward model g = Raise e) →
  predict model (batch_graph <$> bs) scaler = Raise e.
Proof.
  intros Hk Hsofar Hfail. unfold Evaluate.predict in *.
  rewrite <- (take_drop_middle bs k b Hk), fmap_app, predict_loop_app.
  rewrite Hsofar. cbn [mbind res_mbind res_bind]. rewrite fmap_cons.
  cbn [Evaluate.predict_loop].
  destruct Hfail as [->|(g & -> & Hf)]; [done|].
  cbn [mbind res_mbind res_bind]. by rewrite Hf.
Qed.

(** C8. [evaluate] returns, unchanged, what [evaluate_predictions] returns
    on the predictions of the model over the loader's batches and on the
    loader's own target matrix; it has no handler, so an exception of the
    prediction run is the outcome of [evaluate]: the first batch whose
    conversion fails, or on which the model fails, decides it.  Without a
    scaler and without failures the predictions are the model's outputs on
    the batches, in the loader's order. *)
Theorem evaluate_delegates model data_loader (num_tasks : Z)
    (metric_func : @metric val) (ds : string) scaler logger :
  let run := evaluate model data_loader num_tasks metric_func ds scaler logger in
  (∀ preds,
      predict model (batch_graphs batch_graph data_loader) scaler = Ok preds →
      run = evaluate_predictions eq0 truthy nan preds (targets data_loader)
              num_tasks metric_func ds logger)
  ∧ (∀ e,
      predict model (batch_graphs batch_graph data_loader) scaler = Raise e →
      run = ([], Raise e))
  ∧ (∀ k b sofar e,
      batches data_loader !! k = Some b →
      predict model (batch_graph <$> take k (batches data_loader)) scaler
      = Ok sofar →
      batch_graph b = Raise e →
      run = ([], Raise e))
  ∧ (∀ k b sofar g e,
      batches data_loader !! k = Some b →
      predict model (batch_graph <$> take k (batches data_loader)) scaler
      = Ok sofar →
      batch_graph b = Ok g → forward model g = Raise e →
      run = ([], Raise e))
  ∧ (∀ outs,
      scaler = None →
      Forall2 (λ b out, ∃ g, batch_graph b = Ok g ∧ forward model g = Ok out)
        (batches data_loader) outs →
      run = evaluate_predictions eq0 truthy nan (concat outs)
              (targets data_loader) num_tasks metric_func ds logger).
Proof.
  intros run. subst run. unfold Evaluate.evaluate.
  split; [by intros preds ->|]. split; [by intros e ->|].
  split; [|split].
  - intros k b sofar e Hk Hsofar Hb. unfold batch_graphs.
    by rewrite (predict_fails_at model _ scaler k b sofar e Hk Hsofar); [|left].
  - intros k b sofar g e Hk Hsofar Hg Hf. unfold batch_graphs.
    rewrite (predict_fails_at model _ scaler k b sofar e Hk Hsofar); [done|].
    right. by exists g.
  - intros outs -> Hall. unfold batch_graphs, Evaluate.predict.
    by rewrite (predict_in_sequence model _ outs [] Hall).
Qed.

End orchestrator.

End EvaluateFacts.

(** ** The evaluator on concrete matrices *)

Module EvaluateExamples.
Import Evaluate EvaluateFacts.

Local Abbreviation run := (@evaluate_predictions pyfloat unit float_eq0 float_truthy NaN).

(** C1. On [preds = [[1.0, 2.0]]], [targets = [[1.0, 0.5]]] and two tasks,
    the list behind [valid_preds[0]] after the filtering phase is
    [[1.0, 2.0]] and the one behind [valid_targets[0]] is [[1.0, 0.5]]:
    the entries of task 1 sit in task 0's lists, whereas task 0's valid
    pairs are the prediction [1.0] with the target [1.0] only. *)
Theorem filter_phase_mixes_tasks :
  let P := [[f1_0; f2_0]] in
  let G := [[Some f1_0; Some f0_5]] in
  ∃ vp vt σ,
    filter_phase P G 2 = Ok (vp, vt, σ)
    ∧ deref σ <$> vp !! 0 = Some [f1_0; f2_0]
    ∧ deref σ <$> vt !! 0 = Some [f1_0; f0_5]
    ∧ spec_valid_preds 0 P G = [f1_0]
    ∧ spec_valid_targets 0 P G = [f1_0].
Proof.
  exists [0; 0], [1; 1], [[f1_0; f2_0]; [f1_0; f0_5]]. by vm_compute.
Qed.

(** C3. Regression, two examples, two tasks, every target of task 1
    missing: task 1 has no valid target, yet the result has two elements,
    as many as there are tasks: both are the metric's score on task 0's
    pairs (or the metric's exception is raised). *)
Theorem regression_all_missing_task_not_omitted (f : @metric pyfloat) logger :
  let P := [[f1_0; f2_0]; [f0_5; f0_5]] in
  let G := [[Some f1_0; None]; [Some f2_0; None]] in
  spec_valid_targets 1 P G = []
  ∧ (run P G 2 f "regression" logger).2
    = (v ← f [f1_0; f2_0] [f1_0; f0_5]; Ok [v; v]).
Proof.
  split; [done|]. vm_compute.
  by destruct (f _ _).
Qed.

(** C4. [preds = [[1.0, 2.0]]], [targets = [[1.0, None]]], two tasks,
    regression: the metric is called twice on [([1.0], [1.0])] and the
    result has two elements, one per task, although task 1 has no valid
    target. *)
Theorem regression_example_two_scores (f : @metric pyfloat) logger :
  run [[f1_0; f2_0]] [[Some f1_0; None]] 2 f "regression" logger
  = match f [f1_0] [f1_0] with
    | Ok v => ([MetricCall [f1_0] [f1_0]; MetricCall [f1_0] [f1_0]], Ok [v; v])
    | Raise e => ([MetricCall [f1_0] [f1_0]], Raise e)
    end.
Proof.
  vm_compute. by destruct (f _ _).
Qed.

(** C5. Classification, two tasks, the valid targets of task 0 all equal
    to 0 and those of task 1 mixed: no sentinel is recorded and no warning
    is given; the metric is called for both tasks, on the targets and
    predictions of the two tasks together. *)
Theorem classification_guard_sees_all_tasks (f : @metric pyfloat) logger :
  let P := [[f0_5; f0_5]; [f0_0; f0_5]] in
  let G := [[Some f0_0; Some f1_0]; [Some f0_0; Some f0_0]] in
  let ts := [f0_0; f0_0; f1_0; f0_0] in
  let ps := [f0_5; f0_0; f0_5; f0_5] in
  spec_valid_targets 0 P G = [f0_0; f0_0]
  ∧ forallb float_eq0 (spec_valid_targets 0 P G) = true
  ∧ run P G 2 f "classification" logger
    = match f ts ps with
      | Ok v => ([MetricCall ts ps; MetricCall ts ps], Ok [v; v])
      | Raise e => ([MetricCall ts ps], Raise e)
      end.
Proof.
  split; [done|]. split; [done|]. vm_compute. by destruct (f _ _).
Qed.

(** C9. Classification, two tasks, every target of task 1 missing and
    the targets of task 0 mixed: task 1 has no valid target, yet it gets
    no sentinel.  Its list is the list of task 0, which is neither empty
    nor degenerate, so no warning is given and the metric is called for
    both tasks on task 0's pairs; task 1 gets task 0's score. *)
Theorem classification_empty_task_scored (f : @metric pyfloat) logger :
  let P := [[f0_5; f0_5]; [f0_0; f0_5]] in
  let G := [[Some f0_0; None]; [Some f1_0; None]] in
  let ts := [f0_0; f1_0] in
  let ps := [f0_5; f0_0] in
  spec_valid_targets 1 P G = []
  ∧ spec_valid_targets 0 P G = ts
  ∧ run P G 2 f "classification" logger
    = match f ts ps with
      | Ok v => ([MetricCall ts ps; MetricCall ts ps], Ok [v; v])
      | Raise e => ([MetricCall ts ps], Raise e)
      end.
Proof.
  split; [done|]. split; [done|]. vm_compute. by destruct (f _ _).
Qed.

(** Classification on a matrix whose targets are all missing. *)
Lemma classification_empty_is_nan_witness :
  [[f0_5; f0_5]] ≠ []
  ∧ run [[f0_5; f0_5]] [[None; None]] 2 count_metric "classification" None
    = ([Print warn_targets; Print warn_targets], Ok [NaN; NaN]).
Proof.
  split; [done|].
  destruct (proj2 (classification_empty_is_nan (Logger:=unit) float_eq0
                     float_truthy NaN [[f0_5; f0_5]] [[None; None]] 2
                     count_metric None ltac:(done)) 1)
    as (results & Hrun & -> & _).
  - split; [reflexivity | repeat constructor].
  - split; [reflexivity | repeat constructor].
  - reflexivity.
  - exact Hrun.
Defined.

(** Regression on two examples, the second task without valid targets. *)
Lemma shared_lists_all_or_nothing_witness :
  let P := [[f1_0; f2_0]; [f0_5; f0_5]] in
  let G := [[Some f1_0; None]; [Some f2_0; None]] in
  (1 ≤ 2)%Z ∧ 1 ≤ 2 ∧ shape 2 2 P ∧ shape 2 2 G
  ∧ ∀ results,
      (run P G 2 count_metric "regression" None).2 = Ok results →
      length results = 2.
Proof.
  intros P G.
  assert (HP : shape 2 2 P) by (split; [reflexivity | repeat constructor]).
  assert (HG : shape 2 2 G) by (split; [reflexivity | repeat constructor]).
  repeat split; try lia; try apply HP; try apply HG.
  intros results Hres.
  destruct (shared_lists_all_or_nothing (Logger:=unit) float_eq0 float_truthy
              NaN P G 2 2 count_metric "regression" None
              ltac:(lia) ltac:(lia) HP HG)
    as [_ Hreg].
  destruct (Hreg ltac:(done)) as (_ & _ & Hlen).
  exact (Hlen results Hres).
Defined.

(** A loader whose second batch cannot be converted. *)
Lemma evaluate_delegates_witness :
  let batch_graph := λ b : nat,
    if bool_decide (b = 1) then Raise (Exception "bad batch") else Ok b in
  let forward := λ (_ : unit) (g : nat), Ok [[Finite (Z.of_nat g) 0]] in
  let inverse_transform := λ (_ : unit) (raw : list (list pyfloat)), Ok raw in
  let data_loader := {| batches := [0; 1; 2];
                        targets := [[Some f1_0]; [None]; [Some f0_0]] |} in
  evaluate float_eq0 float_truthy NaN batch_graph forward inverse_transform
    tt data_loader 1 count_metric "regression" None (@None unit)
  = ([], Raise (Exception "bad batch")).
Proof.
  intros batch_graph forward inverse_transform data_loader.
  pose proof (evaluate_delegates float_eq0 float_truthy NaN batch_graph
                forward inverse_transform tt data_loader 1 count_metric
                "regression" None (@None unit)) as (_ & _ & Hconv & _).
  apply (Hconv 1 1 [[f0_0]] (Exception "bad batch")); reflexivity.
Defined.

End EvaluateExamples.

(** ** The model factory *)

Module FactoryFacts.
Import Factory.

Section factory_claims.
Context {V : Type}.
Variable init : model_class → @kwargs V → option exn.
Implicit Types (kw : gmap string V) (conf_method : option string).








Lemma except_KeyError_Ok {A} (body : res A) msg (a : A) :
  except_KeyError body msg = Ok a → body = Ok a.
Proof. destruct body as [|[]]; simpl; done. Qed.









End factory_claims.

End FactoryFacts.

(** ** The factory on concrete configurations *)

Module FactoryExamples.
Import Factory FactoryFacts.



End FactoryExamples.

(** * Further properties of the evaluator *)

(** ** Loops that may fail *)

Lemma for_each_invariant {S : Type} (Inv : S → Prop) (xs : list nat)
    (body : nat → S → res S) :
  (∀ x s s', x ∈ xs → Inv s → body x s = Ok s' → Inv s') →
  ∀ s s', Inv s → for_each xs body s = Ok s' → Inv s'.
Proof.
  induction xs as [|x xs IH]; intros Hbody s s' Hs Hrun; simpl in Hrun.
  - by inversion Hrun; subst.
  - destruct (body x s) as [s1|e] eqn:Hx; simpl in Hrun; [|done].
    apply (IH (λ y t t' Hy, Hbody y t t' (list_elem_of_further _ _ _ Hy)) s1 s');
      [|done].
    apply (Hbody x s s1); [left | done | done].
Qed.

Lemma for_each_raise {S : Type} (xs : list nat) (body : nat → S → res S)
    (s : S) (e : exn) :
  for_each xs body s = Raise e → ∃ x s0, x ∈ xs ∧ body x s0 = Raise e.
Proof.
  revert s. induction xs as [|x xs IH]; intros s Hrun; simpl in Hrun; [done|].
  destruct (body x s) as [s1|e1] eqn:Hx; simpl in Hrun.
  - destruct (IH s1 Hrun) as (y & s0 & Hy & Hbody).
    exists y, s0. split; [by right | done].
  - inversion Hrun; subst. exists x, s. split; [left | done].
Qed.

Lemma for_each_Ok_all {S : Type} (xs : list nat) (body : nat → S → res S)
    (s s' : S) :
  for_each xs body s = Ok s' → ∀ x, x ∈ xs → ∃ s1 s2, body x s1 = Ok s2.
Proof.
  revert s. induction xs as [|x xs IH]; intros s Hrun y Hy.
  - by apply elem_of_nil in Hy.
  - simpl in Hrun. destruct (body x s) as [s1|e] eqn:Hx; simpl in Hrun; [|done].
    apply elem_of_cons in Hy as [->|Hy]; [by exists s, s1|].
    by apply (IH s1 Hrun).
Qed.

Lemma for_each_total {S : Type} (xs : list nat) (body : nat → S → res S) :
  (∀ x s, x ∈ xs → ∃ s', body x s = Ok s') →
  ∀ s, ∃ s', for_each xs body s = Ok s'.
Proof.
  induction xs as [|x xs IH]; intros Hbody s; simpl; [by exists s|].
  destruct (Hbody x s) as [s1 ->]; [left|]. simpl.
  apply IH. intros y t Hy. apply Hbody. by right.
Qed.

Lemma for_each_ext {S : Type} (xs : list nat) (f g : nat → S → res S) :
  (∀ x s, x ∈ xs → f x s = g x s) →
  ∀ s, for_each xs f s = for_each xs g s.
Proof.
  induction xs as [|x xs IH]; intros Hfg s; simpl; [done|].
  rewrite <- (Hfg x s) by left.
  destruct (f x s) as [s1|e]; simpl; [|done].
  apply IH. intros y t Hy. apply Hfg. by right.
Qed.

Module EvaluateBounds.
Import Evaluate EvaluateFacts.

Section bounds.
Context {val Logger : Type}.
Variable eq0 truthy : val → bool.
Variable nan : val.
Implicit Types (P : list (list val)) (G : list (list (target val))).
Implicit Types (σ : store val).

(** The loop body fails with [IndexError] only. *)
Lemma filter_step_raise P G (vp vt : list ref) (j i : nat) σ (e : exn) :
  filter_step P G vp vt j i σ = Raise e → e = IndexError.
Proof.
  unfold filter_step, index.
  destruct (G !! i) as [row|]; cbn [mbind res_mbind res_bind]; [|congruence].
  destruct (row !! j) as [[tv|]|]; cbn [mbind res_mbind res_bind];
    [|done|congruence].
  destruct (vp !! j); cbn [mbind res_mbind res_bind]; [|congruence].
  destruct (P !! i) as [prow|]; cbn [mbind res_mbind res_bind]; [|congruence].
  destruct (prow !! j); cbn [mbind res_mbind res_bind]; [|congruence].
  destruct (vt !! j); cbn [mbind res_mbind res_bind]; [done|congruence].
Qed.

(** It succeeds exactly when what it reads is within bounds, whatever
    the store. *)
Lemma filter_step_Ok_iff P G (n j i : nat) σ :
  j < n →
  (∃ σ', filter_step P G (replicate n 0) (replicate n 1) j i σ = Ok σ')
  ↔ readable P G j i = true.
Proof.
  intros Hj. unfold filter_step, index, readable.
  rewrite !(lookup_replicate_2 n _ j Hj).
  destruct (G !! i) as [row|]; cbn [mbind res_mbind res_bind];
    [|split; [by intros [? ?] | done]].
  destruct (row !! j) as [[tv|]|]; cbn [mbind res_mbind res_bind];
    [| split; [done | by eexists] | split; [by intros [? ?] | done]].
  destruct (P !! i) as [prow|]; cbn [mbind res_mbind res_bind];
    [|split; [by intros [? ?] | done]].
  destruct (prow !! j); cbn [mbind res_mbind res_bind];
    [split; [done | by eexists] | split; [by intros [? ?] | done]].
Qed.

(** It keeps the store made of two lists of equal length. *)
Lemma filter_step_paired P G (n j i : nat) σ σ' :
  (∃ a b, σ = [a; b] ∧ length a = length b) →
  filter_step P G (replicate n 0) (replicate n 1) j i σ = Ok σ' →
  ∃ a b, σ' = [a; b] ∧ length a = length b.
Proof.
  intros (a & b & -> & Hlen). unfold filter_step, index.
  destruct (G !! i) as [row|]; cbn [mbind res_mbind res_bind]; [|done].
  destruct (row !! j) as [[tv|]|]; cbn [mbind res_mbind res_bind]; [| |done].
  - destruct (replicate n 0 !! j) as [rp|] eqn:Hrp;
      cbn [mbind res_mbind res_bind]; [|done].
    apply lookup_replicate in Hrp as [-> _].
    destruct (P !! i) as [prow|]; cbn [mbind res_mbind res_bind]; [|done].
    destruct (prow !! j) as [p|]; cbn [mbind res_mbind res_bind]; [|done].
    destruct (replicate n 1 !! j) as [rt|] eqn:Hrt;
      cbn [mbind res_mbind res_bind]; [|done].
    apply lookup_replicate in Hrt as [-> _].
    intros Heq. inversion Heq; subst.
    exists (a ++ [p]), (b ++ [tv]). split; [done|].
    rewrite !length_app. simpl. lia.
  - intros Heq. inversion Heq; subst. by exists a, b.
Qed.

Lemma filter_phase_raise P G (num_tasks : Z) (e : exn) :
  filter_phase P G num_tasks = Raise e → e = IndexError.
Proof.
  unfold filter_phase, alloc. cbn [length app].
  destruct (filter_loop _ _ _ _ _ _) as [σ|e'] eqn:Hloop; simpl; [done|].
  intros Heq; inversion Heq; subst.
  unfold filter_loop in Hloop.
  apply for_each_raise in Hloop as (j & σ1 & _ & Hinner).
  apply for_each_raise in Hinner as (i & σ2 & _ & Hstep).
  by apply filter_step_raise in Hstep.
Qed.

Lemma filter_phase_paired P G (num_tasks : Z) vp vt σ :
  filter_phase P G num_tasks = Ok (vp, vt, σ) →
  vp = list_mul 0 num_tasks ∧ vt = list_mul 1 num_tasks
  ∧ ∃ a b, σ = [a; b] ∧ length a = length b.
Proof.
  unfold filter_phase, alloc. cbn [length app].
  destruct (filter_loop _ _ _ _ _ _) as [σ'|e] eqn:Hloop; simpl; [|done].
  intros Heq; inversion Heq; subst. split; [done|]. split; [done|].
  unfold filter_loop in Hloop.
  eapply (for_each_invariant (λ s, ∃ a b, s = [a; b] ∧ length a = length b));
    [| |exact Hloop].
  - intros j s s' _ Hs Hinner.
    eapply (for_each_invariant (λ s, ∃ a b, s = [a; b] ∧ length a = length b));
      [| exact Hs | exact Hinner].
    intros i t t' _ Ht Hstep. by eapply filter_step_paired.
  - by exists [], [].
Qed.

Lemma filter_phase_Ok_readable P G (num_tasks : Z) r (i j : nat) :
  filter_phase P G num_tasks = Ok r →
  i < length P → j < Z.to_nat num_tasks → readable P G j i = true.
Proof.
  unfold filter_phase, alloc. cbn [length app].
  destruct (filter_loop _ _ _ _ _ _) as [σ'|e] eqn:Hloop; simpl; [|done].
  intros _ Hi Hj. unfold filter_loop, range in Hloop.
  destruct (for_each_Ok_all _ _ _ _ Hloop j) as (s1 & s2 & Hinner).
  { apply elem_of_seq. lia. }
  destruct (for_each_Ok_all _ _ _ _ Hinner i) as (t1 & t2 & Hstep).
  { apply elem_of_seq. lia. }
  apply (filter_step_Ok_iff P G (Z.to_nat num_tasks) j i t1 Hj). by exists t2.
Qed.

Lemma filter_phase_readable_Ok P G (num_tasks : Z) :
  (∀ i j, i < length P → j < Z.to_nat num_tasks → readable P G j i = true) →
  ∃ r, filter_phase P G num_tasks = Ok r.
Proof.
  intros Hread. unfold filter_phase, alloc. cbn [length app].
  destruct (for_each_total (range num_tasks)
              (λ j, for_each (seq 0 (length P))
                      (filter_step P G (list_mul 0 num_tasks)
                         (list_mul 1 num_tasks) j))) with (s := [[]; []] : store val)
    as [σ Hσ].
  - intros j s [_ Hj]%elem_of_seq.
    apply for_each_total. intros i t [_ Hi]%elem_of_seq.
    apply filter_step_Ok_iff; [lia|]. apply Hread; lia.
  - unfold filter_loop. rewrite Hσ. by eexists.
Qed.

Lemma evaluate_predictions_filter_raise P G (num_tasks : Z)
    (metric_func : @metric val) ds (logger : option Logger) (i j : nat) :
  i < length P → j < Z.to_nat num_tasks → readable P G j i = false →
  filter_phase P G num_tasks = Raise IndexError
  ∧ evaluate_predictions eq0 truthy nan P G num_tasks metric_func ds logger
    = ([], Raise IndexError).
Proof.
  intros Hi Hj Hread.
  assert (Hfail : filter_phase P G num_tasks = Raise IndexError).
  { destruct (filter_phase P G num_tasks) as [r|e] eqn:Hphase.
    - rewrite (filter_phase_Ok_readable P G num_tasks r i j Hphase Hi Hj) in Hread.
      done.
    - by rewrite (filter_phase_raise P G num_tasks e Hphase). }
  split; [done|].
  rewrite evaluate_predictions_nonempty, Hfail; [done|].
  destruct P; [simpl in Hi; lia | done].
Qed.

(** X1. The filtering phase succeeds exactly when every entry it reads is
    within bounds: for each example [i < len(preds)] and task
    [j < num_tasks] the target [targets[i][j]] exists and, unless it is
    [None], so does [preds[i][j]].  Otherwise [evaluate_predictions]
    raises [IndexError] before anything is logged or scored. *)
Theorem filter_phase_bounds P G (num_tasks : Z) :
  ((∀ i j, i < length P → j < Z.to_nat num_tasks → readable P G j i = true)
   ↔ ∃ r, filter_phase P G num_tasks = Ok r)
  ∧ (∀ i j (metric_func : @metric val) ds (logger : option Logger),
      i < length P → j < Z.to_nat num_tasks → readable P G j i = false →
      evaluate_predictions eq0 truthy nan P G num_tasks metric_func ds logger
      = ([], Raise IndexError)).
Proof.
  split; [split|].
  - apply filter_phase_readable_Ok.
  - intros [r Hr] i j. by apply (filter_phase_Ok_readable P G num_tasks r).
  - intros i j metric_func ds logger Hi Hj Hread.
    by apply (evaluate_predictions_filter_raise P G num_tasks metric_func ds
                logger i j).
Qed.

(** X2. With at least one task, a target matrix with fewer rows than
    the prediction matrix makes [evaluate_predictions] raise
    [IndexError], with nothing logged and the metric not called. *)
Theorem missing_target_rows_raise P G (num_tasks : Z)
    (metric_func : @metric val) ds (logger : option Logger) :
  (1 ≤ num_tasks)%Z → length G < length P →
  evaluate_predictions eq0 truthy nan P G num_tasks metric_func ds logger
  = ([], Raise IndexError).
Proof.
  intros HT Hrows.
  apply (evaluate_predictions_filter_raise P G num_tasks metric_func ds logger
           (length G) 0); [done | lia |].
  unfold readable. by rewrite lookup_ge_None_2.
Qed.

End bounds.

End EvaluateBounds.

(** ** The scoring loop in closed form *)

Module EvaluateShared.
Import Evaluate EvaluateFacts EvaluateBounds.

Section shared.
Context {val Logger : Type}.
Variable eq0 truthy : val → bool.
Variable nan : val.
Implicit Types (P : list (list val)) (G : list (list (target val))).
Implicit Types (σ : store val) (metric_func : @metric val).
Implicit Types (logger : option Logger) (tr : list (@event val Logger)).

Local Abbreviation score_loop := (score_loop eq0 truthy nan).
Local Abbreviation score_shared := (score_shared eq0 truthy nan).
Local Abbreviation degenerate := (degenerate eq0 truthy).
Local Abbreviation evaluate_predictions := (evaluate_predictions eq0 truthy nan).

(** Carrying the accumulators of the loop over a closed-form outcome. *)
Local Abbreviation after tr results out :=
  (match out with
   | (tr', Ok rs) => (tr ++ tr', Ok (results ++ rs))
   | (tr', Raise e) => (tr ++ tr', Raise e)
   end).

(** The guard of lines 46-54 lets the round through. *)
Local Abbreviation unguarded ds ts ps :=
  (if bool_decide (ds = "classification")
   then degenerate ts = false ∧ degenerate ps = false
   else True).

Lemma score_loop_degenerate_preds metric_func logger σ (rp rt : ref) :
  degenerate (deref σ rt) = false → degenerate (deref σ rp) = true →
  ∀ n results tr,
    score_loop metric_func "classification" logger σ
      (replicate n (rp, rt)) results tr
    = (tr ++ replicate n (info logger warn_preds),
       Ok (results ++ replicate n nan)).
Proof.
  intros Hts Hps. induction n as [|n IH]; intros results tr.
  - simpl. by rewrite !app_nil_r.
  - cbn [replicate Evaluate.score_loop]. rewrite bool_decide_eq_true_2 by done.
    rewrite Hts, Hps, IH. by rewrite <- !app_assoc.
Qed.

Lemma score_loop_skip metric_func ds logger σ (rp rt : ref) :
  unguarded ds (deref σ rt) (deref σ rp) →
  bool_decide (length (deref σ rt) = 0) = true →
  ∀ n results tr,
    score_loop metric_func ds logger σ (replicate n (rp, rt)) results tr
    = (tr, Ok results).
Proof.
  intros Hguard Hlen. induction n as [|n IH]; intros results tr; [done|].
  cbn [replicate Evaluate.score_loop]. rewrite Hlen.
  destruct (bool_decide (ds = "classification"));
    [destruct Hguard as [-> ->]|]; apply IH.
Qed.

Lemma score_loop_call metric_func ds logger σ (rp rt : ref) (v : val) :
  unguarded ds (deref σ rt) (deref σ rp) →
  bool_decide (length (deref σ rt) = 0) = false →
  metric_func (deref σ rt) (deref σ rp) = Ok v →
  ∀ n results tr,
    score_loop metric_func ds logger σ (replicate n (rp, rt)) results tr
    = (tr ++ replicate n (MetricCall (deref σ rt) (deref σ rp)),
       Ok (results ++ replicate n v)).
Proof.
  intros Hguard Hlen Hm. induction n as [|n IH]; intros results tr.
  - simpl. by rewrite !app_nil_r.
  - cbn [replicate Evaluate.score_loop].
    destruct (bool_decide (ds = "classification"));
      [destruct Hguard as [-> ->]|];
      rewrite Hlen, Hm, IH; by rewrite <- !app_assoc.
Qed.

Lemma score_loop_fail metric_func ds logger σ (rp rt : ref) (e : exn) :
  unguarded ds (deref σ rt) (deref σ rp) →
  bool_decide (length (deref σ rt) = 0) = false →
  metric_func (deref σ rt) (deref σ rp) = Raise e →
  ∀ n results tr,
    score_loop metric_func ds logger σ (replicate (S n) (rp, rt)) results tr
    = (tr ++ [MetricCall (deref σ rt) (deref σ rp)], Raise e).
Proof.
  intros Hguard Hlen Hm n results tr.
  cbn [replicate Evaluate.score_loop].
  destruct (bool_decide (ds = "classification"));
    [destruct Hguard as [-> ->]|]; by rewrite Hlen, Hm.
Qed.

(** The loop over [n] copies of one pair of references is its closed form. *)
Lemma score_loop_shared metric_func ds logger σ (rp rt : ref) (n : nat)
    (results : list val) tr :
  score_loop metric_func ds logger σ (replicate n (rp, rt)) results tr
  = after tr results
      (score_shared metric_func ds logger n (deref σ rp) (deref σ rt)).
Proof.
  unfold Evaluate.score_shared.
  assert (Hrest : unguarded ds (deref σ rt) (deref σ rp) →
    score_loop metric_func ds logger σ (replicate n (rp, rt)) results tr
    = after tr results
        (if bool_decide (length (deref σ rt) = 0) then ([], Ok [])
         else match n with
              | 0 => ([], Ok [])
              | S _ =>
                  match metric_func (deref σ rt) (deref σ rp) with
                  | Ok v => (replicate n (MetricCall (deref σ rt) (deref σ rp)),
                             Ok (replicate n v))
                  | Raise e => ([MetricCall (deref σ rt) (deref σ rp)], Raise e)
                  end
              end)).
  { intros Hguard.
    destruct (bool_decide (length (deref σ rt) = 0)) eqn:Hlen.
    - rewrite score_loop_skip by done. by rewrite !app_nil_r.
    - destruct n as [|n]; [simpl; by rewrite !app_nil_r|].
      destruct (metric_func (deref σ rt) (deref σ rp)) as [v|e] eqn:Hm.
      + by rewrite (score_loop_call metric_func ds logger σ rp rt v).
      + by rewrite (score_loop_fail metric_func ds logger σ rp rt e). }
  destruct (decide (ds = "classification")) as [->|Hds].
  - rewrite bool_decide_eq_true_2 in * by done. cbn [andb].
    destruct (degenerate (deref σ rt)) eqn:Hts.
    { by rewrite (score_loop_degenerate_targets eq0 truthy nan). }
    destruct (degenerate (deref σ rp)) eqn:Hps.
    { by rewrite score_loop_degenerate_preds. }
    by apply Hrest.
  - rewrite bool_decide_eq_false_2 in * by done. cbn [andb].
    by apply Hrest.
Qed.

(** The rounds the guard lets through: skipped, scored or failed. *)
Ltac settle_unguarded :=
  match goal with
  | |- context [bool_decide (length ?ts = 0)] =>
      destruct ts as [|? ?];
      [left; split; [by left | done]|];
      rewrite bool_decide_eq_false_2 by done
  end;
  match goal with
  | |- context [match ?n with 0 => _ | S _ => _ end] =>
      destruct n as [|?]; [left; split; [by right | done]|]
  end;
  match goal with
  | |- context [match ?m ?ts ?ps with Ok _ => _ | Raise _ => _ end] =>
      let Hm := fresh "Hm" in
      destruct (m ts ps) as [?v|?e] eqn:Hm;
      [right; left; split; [done | eexists; split; [reflexivity | done]]
      |right; right; split;
         [done | split; [lia | eexists; split; [reflexivity | done]]]]
  end.

Lemma after_nil (out : list (@event val Logger) * res (list val)) :
  after [] [] out = out.
Proof. by destruct out as [tr' [rs|e]]. Qed.

(** The forms the closed form can take. *)
Lemma score_shared_cases metric_func ds logger (n : nat) (ps ts : list val) :
  (ds = "classification" ∧ degenerate ts = true
   ∧ score_shared metric_func ds logger n ps ts
     = (replicate n (info logger warn_targets), Ok (replicate n nan)))
  ∨ (ds = "classification" ∧ degenerate ts = false ∧ degenerate ps = true
     ∧ score_shared metric_func ds logger n ps ts
       = (replicate n (info logger warn_preds), Ok (replicate n nan)))
  ∨ ((ds = "classification" → degenerate ts = false ∧ degenerate ps = false)
     ∧ (((ts = [] ∨ n = 0)
         ∧ score_shared metric_func ds logger n ps ts = ([], Ok []))
        ∨ (ts ≠ [] ∧ ∃ v, metric_func ts ps = Ok v
           ∧ score_shared metric_func ds logger n ps ts
             = (replicate n (MetricCall ts ps), Ok (replicate n v)))
        ∨ (ts ≠ [] ∧ 0 < n ∧ ∃ e, metric_func ts ps = Raise e
           ∧ score_shared metric_func ds logger n ps ts
             = ([MetricCall ts ps], Raise e)))).
Proof.
  unfold Evaluate.score_shared.
  destruct (decide (ds = "classification")) as [->|Hds].
  - rewrite bool_decide_eq_true_2 by done. cbn [andb].
    destruct (degenerate ts) eqn:Hts; [by left|].
    destruct (degenerate ps) eqn:Hps; [right; by left|].
    right; right. split; [done | settle_unguarded].
  - rewrite bool_decide_eq_false_2 by done. cbn [andb].
    right; right. split; [done | settle_unguarded].
Qed.

(** Every run of [evaluate_predictions] is of one of three kinds. *)
Lemma evaluate_predictions_outcomes P G (num_tasks : Z) metric_func ds logger :
  (P = [] ∧ evaluate_predictions P G num_tasks metric_func ds logger
            = ([], Ok (list_mul nan num_tasks)))
  ∨ (P ≠ [] ∧ filter_phase P G num_tasks = Raise IndexError
     ∧ evaluate_predictions P G num_tasks metric_func ds logger
       = ([], Raise IndexError))
  ∨ (P ≠ [] ∧ ∃ ps ts,
       filter_phase P G num_tasks
       = Ok (list_mul 0 num_tasks, list_mul 1 num_tasks, [ps; ts])
       ∧ length ps = length ts
       ∧ evaluate_predictions P G num_tasks metric_func ds logger
         = score_shared metric_func ds logger (Z.to_nat num_tasks) ps ts).
Proof.
  destruct P as [|prow P']; [by left|]. right.
  destruct (filter_phase (prow :: P') G num_tasks) as [[[vp vt] σ]|e] eqn:Hphase.
  - right. split; [done|].
    destruct (filter_phase_paired _ _ _ _ _ _ Hphase)
      as (-> & -> & ps & ts & -> & Hlen).
    exists ps, ts. split; [done|]. split; [done|].
    rewrite evaluate_predictions_nonempty, Hphase, zip_list_mul by done.
    rewrite score_loop_shared. change (deref [ps; ts] 0) with ps.
    change (deref [ps; ts] 1) with ts.
    destruct (score_shared metric_func ds logger (Z.to_nat num_tasks) ps ts)
      as [tr' [rs|e]]; reflexivity.
  - left. split; [done|].
    assert (He : e = IndexError) by exact (filter_phase_raise _ _ _ _ Hphase).
    subst e. split; [done|].
    rewrite evaluate_predictions_nonempty by done. by rewrite Hphase.
Qed.

Lemma degenerate_nil : degenerate [] = true.
Proof. done. Qed.

(** X3. Whatever the matrices, their shapes and the dataset type are, a
    list returned by [evaluate_predictions] is either empty or consists of
    [num_tasks] copies of one value: all tasks get the same entry.  For
    classification it always has [num_tasks] entries. *)
Theorem result_uniform P G (num_tasks : Z) metric_func ds logger
    (results : list val) :
  (evaluate_predictions P G num_tasks metric_func ds logger).2 = Ok results →
  (results = [] ∨ ∃ v, results = replicate (Z.to_nat num_tasks) v)
  ∧ (ds = "classification" → length results = Z.to_nat num_tasks).
Proof.
  intros Hres.
  destruct (evaluate_predictions_outcomes P G num_tasks metric_func ds logger)
    as [[_ Hrun]|[(_ & _ & Hrun)|(_ & ps & ts & _ & _ & Hrun)]];
    rewrite Hrun in Hres; simpl in Hres.
  - inversion Hres; subst. split; [right; by exists nan|].
    intros _. apply list_mul_length.
  - done.
  - destruct (score_shared_cases metric_func ds logger (Z.to_nat num_tasks) ps ts)
      as [(Hds & _ & Hout)|[(Hds & _ & _ & Hout)|(Hguard & Hrest)]].
    + rewrite Hout in Hres. inversion Hres; subst.
      split; [right; by exists nan|]. intros _. apply length_replicate.
    + rewrite Hout in Hres. inversion Hres; subst.
      split; [right; by exists nan|]. intros _. apply length_replicate.
    + destruct Hrest as [([Hts|Hn] & Hout)|[(_ & v & _ & Hout)|(_ & _ & e & _ & Hout)]];
        rewrite Hout in Hres; inversion Hres; subst.
      * split; [by left|]. intros Hds. destruct (Hguard Hds) as [Hts _].
        by rewrite degenerate_nil in Hts.
      * split; [by left|]. intros _. by rewrite Hn.
      * split; [right; by exists v|]. intros _. apply length_replicate.
Qed.

(** X4. The metric function is only ever called on a non-empty list of
    targets and a list of predictions of the same length; for
    classification neither of the two lists is all zeros or all truthy. *)
Theorem metric_call_discipline P G (num_tasks : Z) metric_func ds logger
    (ts ps : list val) :
  MetricCall ts ps
    ∈ (evaluate_predictions P G num_tasks metric_func ds logger).1 →
  ts ≠ [] ∧ length ts = length ps
  ∧ (ds = "classification" → degenerate ts = false ∧ degenerate ps = false).
Proof.
  intros Hin.
  destruct (evaluate_predictions_outcomes P G num_tasks metric_func ds logger)
    as [[_ Hrun]|[(_ & _ & Hrun)|(_ & ps' & ts' & _ & Hlen & Hrun)]];
    rewrite Hrun in Hin; simpl in Hin; try by apply elem_of_nil in Hin.
  destruct (score_shared_cases metric_func ds logger (Z.to_nat num_tasks) ps' ts')
    as [(_ & _ & Hout)|[(_ & _ & _ & Hout)|(Hguard & Hrest)]].
  - rewrite Hout in Hin. simpl in Hin.
    apply elem_of_replicate in Hin as [Heq _]. by destruct logger.
  - rewrite Hout in Hin. simpl in Hin.
    apply elem_of_replicate in Hin as [Heq _]. by destruct logger.
  - destruct Hrest as [(_ & Hout)|[(Hne & v & _ & Hout)|(Hne & _ & e & _ & Hout)]];
      rewrite Hout in Hin; simpl in Hin.
    + by apply elem_of_nil in Hin.
    + apply elem_of_replicate in Hin as [Heq _]. by inversion Heq; subst.
    + apply list_elem_of_singleton in Hin. by inversion Hin; subst.
Qed.

(** X5. Every event of a run is a call of the metric or, for
    classification only, one of the two warnings, sent to the logger when
    there is one and printed otherwise.  A run never mixes events: all its
    events are the same one, and there are at most [num_tasks] of them. *)
Theorem trace_discipline P G (num_tasks : Z) metric_func ds logger :
  let tr := (evaluate_predictions P G num_tasks metric_func ds logger).1 in
  (∀ ev, ev ∈ tr →
     (∃ ts ps, ev = MetricCall ts ps)
     ∨ (ds = "classification"
        ∧ (ev = info logger warn_targets ∨ ev = info logger warn_preds)))
  ∧ (∀ ev ev', ev ∈ tr → ev' ∈ tr → ev = ev')
  ∧ length tr ≤ Z.to_nat num_tasks.
Proof.
  intros tr. subst tr.
  assert (Hrep : ∀ (k : nat) (ev0 : @event val Logger) (Q : @event val Logger → Prop),
    k ≤ Z.to_nat num_tasks → Q ev0 →
    (∀ ev, ev ∈ replicate k ev0 → Q ev)
    ∧ (∀ ev ev', ev ∈ replicate k ev0 → ev' ∈ replicate k ev0 → ev = ev')
    ∧ length (replicate k ev0) ≤ Z.to_nat num_tasks).
  { intros k ev0 Q Hk HQ. split; [|split].
    - by intros ev [-> _]%elem_of_replicate.
    - by intros ev ev' [-> _]%elem_of_replicate [-> _]%elem_of_replicate.
    - by rewrite length_replicate. }
  assert (Hnil : ∀ Q : @event val Logger → Prop,
    (∀ ev, ev ∈ ([] : list (@event val Logger)) → Q ev)
    ∧ (∀ ev ev' : @event val Logger, ev ∈ [] → ev' ∈ [] → ev = ev')
    ∧ length ([] : list (@event val Logger)) ≤ Z.to_nat num_tasks).
  { intros Q. split; [|split].
    - by intros ev Hin%elem_of_nil.
    - by intros ev ev' Hin%elem_of_nil.
    - simpl. lia. }
  destruct (evaluate_predictions_outcomes P G num_tasks metric_func ds logger)
    as [[_ Hrun]|[(_ & _ & Hrun)|(_ & ps & ts & _ & _ & Hrun)]];
    rewrite Hrun; cbn [fst]; try apply Hnil.
  destruct (score_shared_cases metric_func ds logger (Z.to_nat num_tasks) ps ts)
    as [(Hds & _ & Hout)|[(Hds & _ & _ & Hout)|(_ & Hrest)]].
  - rewrite Hout. cbn [fst]. apply Hrep; [done|]. right. split; [done | by left].
  - rewrite Hout. cbn [fst]. apply Hrep; [done|]. right. split; [done | by right].
  - destruct Hrest as [(_ & Hout)|[(_ & v & _ & Hout)|(_ & Hn & e & _ & Hout)]];
      rewrite Hout; cbn [fst].
    + apply Hnil.
    + apply Hrep; [done|]. left. by exists ts, ps.
    + apply (Hrep 1); [lia|]. left. by exists ts, ps.
Qed.

(** X6. [evaluate_predictions] raises in two ways only: [IndexError]
    from the filtering loop, before anything is logged or scored, or the
    exception of the first call of the metric function, which is then the
    only event of the run. *)
Theorem failure_provenance P G (num_tasks : Z) metric_func ds logger (e : exn) :
  (evaluate_predictions P G num_tasks metric_func ds logger).2 = Raise e →
  (e = IndexError
   ∧ filter_phase P G num_tasks = Raise IndexError
   ∧ (evaluate_predictions P G num_tasks metric_func ds logger).1 = [])
  ∨ (∃ ts ps,
       metric_func ts ps = Raise e
       ∧ (evaluate_predictions P G num_tasks metric_func ds logger).1
         = [MetricCall ts ps]).
Proof.
  intros Hres.
  destruct (evaluate_predictions_outcomes P G num_tasks metric_func ds logger)
    as [[_ Hrun]|[(_ & Hphase & Hrun)|(_ & ps & ts & _ & _ & Hrun)]];
    rewrite Hrun in Hres |- *; simpl in Hres.
  - done.
  - inversion Hres; subst. by left.
  - right.
    destruct (score_shared_cases metric_func ds logger (Z.to_nat num_tasks) ps ts)
      as [(_ & _ & Hout)|[(_ & _ & _ & Hout)|(_ & Hrest)]];
      [by rewrite Hout in Hres | by rewrite Hout in Hres |].
    destruct Hrest as [(_ & Hout)|[(_ & v & _ & Hout)|(_ & _ & e' & Hm & Hout)]];
      rewrite Hout in Hres |- *; simpl in Hres; try done.
    inversion Hres; subst. by exists ts, ps.
Qed.

(** X7. On matrices of [E >= 1] rows and [num_tasks >= 1] columns and for
    classification, the guard looks at the targets and the predictions of
    all tasks together: if these targets are all zeros or all truthy every
    task gets the sentinel and the warning about the targets; else, if
    these predictions are all zeros or all truthy, every task gets the
    sentinel and the warning about the predictions; else every task gets
    the metric's score on the joint lists, or the metric's exception ends
    the run at its first call. *)
Theorem classification_joint_guard P G (E : nat) (num_tasks : Z)
    metric_func logger :
  (1 ≤ num_tasks)%Z → 1 ≤ E →
  shape E (Z.to_nat num_tasks) P → shape E (Z.to_nat num_tasks) G →
  let T := Z.to_nat num_tasks in
  let ps := all_valid_preds (range num_tasks) P G in
  let ts := all_valid_targets (range num_tasks) P G in
  let run := evaluate_predictions P G num_tasks metric_func "classification"
               logger in
  (degenerate ts = true →
     run = (replicate T (info logger warn_targets), Ok (replicate T nan)))
  ∧ (degenerate ts = false → degenerate ps = true →
     run = (replicate T (info logger warn_preds), Ok (replicate T nan)))
  ∧ (degenerate ts = false → degenerate ps = false →
     run = match metric_func ts ps with
           | Ok v => (replicate T (MetricCall ts ps), Ok (replicate T v))
           | Raise e => ([MetricCall ts ps], Raise e)
           end).
Proof.
  intros HT HE HP HG T ps ts run.
  assert (Hrun : run = score_shared metric_func "classification" logger T ps ts).
  { subst run. rewrite evaluate_predictions_nonempty.
    - rewrite (filter_phase_shared P G E num_tasks HP HG), zip_list_mul.
      rewrite score_loop_shared.
      exact (after_nil (score_shared metric_func "classification" logger T ps ts)).
    - destruct HP as [HlenP _]. destruct P; [simpl in HlenP; lia | done]. }
  rewrite Hrun. unfold Evaluate.score_shared.
  rewrite bool_decide_eq_true_2 by done. cbn [andb].
  split; [by intros ->|]. split; [by intros -> ->|].
  intros Hts Hps. rewrite Hts, Hps.
  destruct ts as [|t ts']; [done|].
  rewrite bool_decide_eq_false_2 by done.
  destruct T as [|n] eqn:HeqT; [lia | done].
Qed.

(** X8. With a single task and at least one example the evaluator does
    what its documentation says, on the task's own valid targets [ts] and
    valid predictions [ps]: for classification a degenerate [ts], or else a
    degenerate [ps], gives the sentinel and the matching warning;
    otherwise no valid target gives the empty list, and else the result is
    the metric's score on [(ts, ps)], or its exception. *)
Theorem single_task_evaluation P G (E : nat) metric_func ds logger :
  1 ≤ E → shape E 1 P → shape E 1 G →
  let ps := spec_valid_preds 0 P G in
  let ts := spec_valid_targets 0 P G in
  let run := evaluate_predictions P G 1 metric_func ds logger in
  (ds = "classification" → degenerate ts = true →
     run = ([info logger warn_targets], Ok [nan]))
  ∧ (ds = "classification" → degenerate ts = false → degenerate ps = true →
     run = ([info logger warn_preds], Ok [nan]))
  ∧ ((ds = "classification" → degenerate ts = false ∧ degenerate ps = false) →
     (ts = [] → run = ([], Ok []))
     ∧ (ts ≠ [] →
        run = match metric_func ts ps with
              | Ok v => ([MetricCall ts ps], Ok [v])
              | Raise e => ([MetricCall ts ps], Raise e)
              end)).
Proof.
  intros HE HP HG ps ts run.
  assert (Hrun : run = score_shared metric_func ds logger 1 ps ts).
  { subst run. rewrite evaluate_predictions_nonempty.
    - rewrite (filter_phase_single_task P G E HP HG).
      change (zip [0] [1]) with (replicate 1 (0, 1)).
      rewrite score_loop_shared.
      exact (after_nil (score_shared metric_func ds logger 1 ps ts)).
    - destruct HP as [HlenP _]. destruct P; [simpl in HlenP; lia | done]. }
  rewrite Hrun. unfold Evaluate.score_shared.
  split; [|split].
  - intros -> ->. by rewrite bool_decide_eq_true_2.
  - intros -> -> ->. by rewrite bool_decide_eq_true_2.
  - intros Hguard.
    assert (Hoff : bool_decide (ds = "classification") && degenerate ts = false
                   ∧ bool_decide (ds = "classification") && degenerate ps = false).
    { destruct (decide (ds = "classification")) as [Hds|Hds].
      - destruct (Hguard Hds) as [-> ->]. by rewrite !andb_false_r.
      - by rewrite (bool_decide_eq_false_2 _ Hds). }
    destruct Hoff as [-> ->]. split.
    + by intros ->.
    + intros Hne. rewrite bool_decide_eq_false_2; [done|]. by destruct ts.
Qed.

Lemma filter_step_take P G (vp vt : list ref) (n j i : nat) σ :
  j < n → i < length P →
  filter_step (take n <$> P) (take n <$> take (length P) G) vp vt j i σ
  = filter_step P G vp vt j i σ.
Proof.
  intros Hj Hi. unfold filter_step, index.
  rewrite !list_lookup_fmap, (lookup_take_lt G _ i Hi).
  destruct (G !! i) as [row|]; cbn [fmap option_fmap option_map mbind
                                     res_mbind res_bind]; [|done].
  rewrite (lookup_take_lt row n j Hj).
  destruct (row !! j) as [[tv|]|]; cbn [mbind res_mbind res_bind]; [|done|done].
  destruct (vp !! j); cbn [mbind res_mbind res_bind]; [|done].
  destruct (P !! i) as [prow|]; cbn [fmap option_fmap option_map mbind
                                      res_mbind res_bind]; [|done].
  by rewrite (lookup_take_lt prow n j Hj).
Qed.

(** X9. Only the first [num_tasks] columns of the two matrices and the
    first [len(preds)] rows of the targets are looked at: cutting
    everything else away changes neither the outcome nor the trace. *)
Theorem extra_entries_ignored P G (num_tasks : Z) metric_func ds logger :
  let n := Z.to_nat num_tasks in
  evaluate_predictions (take n <$> P) (take n <$> take (length P) G)
    num_tasks metric_func ds logger
  = evaluate_predictions P G num_tasks metric_func ds logger.
Proof.
  intros n. unfold Evaluate.evaluate_predictions.
  rewrite length_fmap.
  destruct (bool_decide (length P = 0)); [done|].
  assert (Hphase :
    filter_phase (take n <$> P) (take n <$> take (length P) G) num_tasks
    = filter_phase P G num_tasks).
  { unfold filter_phase, alloc, filter_loop. cbn [length app].
    rewrite length_fmap.
    rewrite (for_each_ext (range num_tasks) _
               (λ j, for_each (seq 0 (length P))
                       (filter_step P G (list_mul 0 num_tasks)
                          (list_mul 1 num_tasks) j))); [done|].
    intros j s [_ Hj]%elem_of_seq.
    apply for_each_ext. intros i t [_ Hi]%elem_of_seq.
    apply filter_step_take; [subst n|]; lia. }
  by rewrite Hphase.
Qed.

End shared.

End EvaluateShared.

(** * Further properties of the factory *)

Module FactoryBehaviour.
Import Factory FactoryFacts.

Section behaviour.
Context {V : Type}.
Variable init : model_class → @kwargs V → option exn.
Implicit Types (kw : gmap string V) (conf_method : option string).
Implicit Types (k : @kwargs V) (e : exn).

Lemma construct_raise cls k e :
  construct init cls k = Raise e → init cls k = Some e.
Proof.
  unfold construct. destruct (init cls k); [|done].
  intros Heq. by inversion Heq.
Qed.

Lemma construct_fails cls k e :
  init cls k = Some e → construct init cls k = Raise e.
Proof. unfold construct. by intros ->. Qed.

Lemma construct_kwargs cls k m :
  construct init cls k = Ok m → init_kwargs m = k.
Proof.
  unfold construct. destruct (init cls k); [done|].
  intros Heq. by inversion Heq.
Qed.

Lemma except_KeyError_raise {A} (body : res A) (msg : string) e :
  except_KeyError body msg = Raise e →
  e = NotImplementedError msg ∨ (e ≠ KeyError ∧ body = Raise e).
Proof.
  destruct body as [a|[]]; simpl; intros Heq; inversion Heq; subst;
    (by left) || (by right).
Qed.

Lemma nn_raise conf_method kw e :
  nn init conf_method kw = Raise e →
  (∃ c, conf_method = Some c
        ∧ e = NotImplementedError
                ("Unrecognized NN confidence method: " +:+ quoted c))
  ∨ (∃ cls k, init cls k = Some e).
Proof.
  destruct conf_method as [c|]; unfold nn.
  - intros [->|[Hne Hbody]]%except_KeyError_raise; [left; by exists c|].
    unfold getitem in Hbody. destruct (nn_table !! c) as [cls|];
      [|by inversion Hbody; subst].
    cbn [mbind res_mbind res_bind] in Hbody. right.
    eexists _, _. by apply construct_raise.
  - intros Hraise. right. eexists _, _. by apply construct_raise.
Qed.

Lemma mpn_raise conf_method kw e :
  mpn init conf_method kw = Raise e →
  (∃ c, conf_method = Some c
        ∧ e = NotImplementedError
                ("Unrecognized MPN confidence method: " +:+ quoted c))
  ∨ (∃ cls k, init cls k = Some e).
Proof.
  destruct conf_method as [c|]; unfold mpn.
  - intros [->|[Hne Hbody]]%except_KeyError_raise; [left; by exists c|].
    unfold getitem in Hbody. destruct (mpn_table !! c) as [cls|];
      [|by inversion Hbody; subst].
    cbn [mbind res_mbind res_bind] in Hbody. right.
    eexists _, _. by apply construct_raise.
  - intros Hraise. right. eexists _, _. by apply construct_raise.
Qed.

Lemma nn_kwargs conf_method kw m :
  nn init conf_method kw = Ok m → init_kwargs m = passed_kwargs conf_method kw.
Proof.
  destruct conf_method as [c|]; unfold nn.
  - intros Hm%except_KeyError_Ok. unfold getitem in Hm.
    destruct (nn_table !! c) as [cls|]; [|done].
    cbn [mbind res_mbind res_bind] in Hm. by apply construct_kwargs in Hm.
  - intros Hm. by apply construct_kwargs in Hm.
Qed.

Lemma mpn_kwargs conf_method kw m :
  mpn init conf_method kw = Ok m → init_kwargs m = passed_kwargs conf_method kw.
Proof.
  destruct conf_method as [c|]; unfold mpn.
  - intros Hm%except_KeyError_Ok. unfold getitem in Hm.
    destruct (mpn_table !! c) as [cls|]; [|done].
    cbn [mbind res_mbind res_bind] in Hm. by apply construct_kwargs in Hm.
  - intros Hm. by apply construct_kwargs in Hm.
Qed.

Lemma default_conf_method k (c : string) :
  default None (kw_conf_method k) = Some c → kw_conf_method k = Some (Some c).
Proof. destruct (kw_conf_method k) as [[c'|]|]; simpl; congruence. Qed.

(** X10. An exception raised by [model] is one of three
    [NotImplementedError]s, naming the unknown key or, for "nn" and "mpn",
    the given [conf_method], or it was raised by the constructor of a
    model class. *)
Theorem model_failure_provenance (key : string) k e :
  model init key k = Raise e →
  e = NotImplementedError ("Unrecognized model: " +:+ quoted key)
  ∨ (∃ c, kw_conf_method k = Some (Some c)
          ∧ ((key = "nn"
              ∧ e = NotImplementedError
                      ("Unrecognized NN confidence method: " +:+ quoted c))
             ∨ (key = "mpn"
                ∧ e = NotImplementedError
                        ("Unrecognized MPN confidence method: " +:+ quoted c))))
  ∨ (∃ cls k', init cls k' = Some e).
Proof.
  unfold model, call_with_kwargs.
  destruct (decide (key = "rf")) as [->|Hrf].
  { rewrite bool_decide_eq_true_2 by done.
    intros Hraise. right; right. eexists _, _. by apply construct_raise. }
  rewrite (bool_decide_eq_false_2 _ Hrf).
  destruct (decide (key = "gp")) as [->|Hgp].
  { rewrite bool_decide_eq_true_2 by done.
    intros Hraise. right; right. eexists _, _. by apply construct_raise. }
  rewrite (bool_decide_eq_false_2 _ Hgp).
  destruct (decide (key = "nn")) as [->|Hnn].
  { rewrite bool_decide_eq_true_2 by done.
    intros [(c & Hc & ->)|Hinit]%nn_raise; [|by right; right].
    right; left. exists c. split; [by apply default_conf_method | by left]. }
  rewrite (bool_decide_eq_false_2 _ Hnn).
  destruct (decide (key = "mpn")) as [->|Hmpn].
  { rewrite bool_decide_eq_true_2 by done.
    intros [(c & Hc & ->)|Hinit]%mpn_raise; [|by right; right].
    right; left. exists c. split; [by apply default_conf_method | by right]. }
  rewrite (bool_decide_eq_false_2 _ Hmpn).
  intros Heq. inversion Heq. by left.
Qed.

(** X11. The handler of [nn] and [mpn] spans the call of the class: when
    a [conf_method] of the dictionary is given and the constructor of its
    class raises [KeyError], the caller gets the [NotImplementedError]
    that names the [conf_method]; any other exception of the constructor
    comes through unchanged.  Without a [conf_method] the base class is
    called outside the handler and every exception, [KeyError] included,
    comes through.  With a [conf_method] given, [KeyError] never reaches
    the caller. *)
Theorem constructor_keyerror_rewrapped kw :
  (∀ c cls e, nn_table !! c = Some cls →
      init cls (passed_kwargs (Some c) kw) = Some e →
      nn init (Some c) kw
      = Raise match e with
              | KeyError =>
                  NotImplementedError
                    ("Unrecognized NN confidence method: " +:+ quoted c)
              | _ => e
              end)
  ∧ (∀ c cls e, mpn_table !! c = Some cls →
      init cls (passed_kwargs (Some c) kw) = Some e →
      mpn init (Some c) kw
      = Raise match e with
              | KeyError =>
                  NotImplementedError
                    ("Unrecognized MPN confidence method: " +:+ quoted c)
              | _ => e
              end)
  ∧ (∀ e, init NNModel (passed_kwargs None kw) = Some e →
      nn init None kw = Raise e)
  ∧ (∀ e, init MPNModel (passed_kwargs None kw) = Some e →
      mpn init None kw = Raise e)
  ∧ (∀ c, nn init (Some c) kw ≠ Raise KeyError
          ∧ mpn init (Some c) kw ≠ Raise KeyError).
Proof.
  split; [|split; [|split; [|split]]].
  - intros c cls e Hcls Hinit. unfold nn, getitem. rewrite Hcls.
    cbn [mbind res_mbind res_bind].
    change {| kw_conf_method := Some (Some c); kw_other := kw |}
      with (passed_kwargs (Some c) kw).
    rewrite (construct_fails _ _ _ Hinit). by destruct e.
  - intros c cls e Hcls Hinit. unfold mpn, getitem. rewrite Hcls.
    cbn [mbind res_mbind res_bind].
    change {| kw_conf_method := Some (Some c); kw_other := kw |}
      with (passed_kwargs (Some c) kw).
    rewrite (construct_fails _ _ _ Hinit). by destruct e.
  - intros e Hinit. unfold nn.
    change {| kw_conf_method := None; kw_other := kw |}
      with (passed_kwargs None kw).
    by apply construct_fails.
  - intros e Hinit. unfold mpn.
    change {| kw_conf_method := None; kw_other := kw |}
      with (passed_kwargs None kw).
    by apply construct_fails.
  - intros c. split; unfold nn, mpn.
    + by intros [?|[? _]]%except_KeyError_raise.
    + by intros [?|[? _]]%except_KeyError_raise.
Qed.

(** X12. The instance [model] returns was constructed with the caller's
    keywords: all of them, as they are, for "rf" and "gp"; for "nn" and
    "mpn" the other keywords as they are and [conf_method] when it is a
    string, while a [conf_method] that is absent or [None] is not passed
    to the class. *)
Theorem keywords_forwarded (key : string) k m :
  model init key k = Ok m →
  kw_other (init_kwargs m) = kw_other k
  ∧ (key = "rf" ∨ key = "gp" → init_kwargs m = k)
  ∧ (key = "nn" ∨ key = "mpn" →
     kw_conf_method (init_kwargs m)
     = Some <$> default None (kw_conf_method k)).
Proof.
  unfold model, call_with_kwargs.
  destruct (decide (key = "rf")) as [->|Hrf].
  { rewrite bool_decide_eq_true_2 by done.
    intros ->%construct_kwargs. split; [done|]. split; [done|].
    by intros [?|?]. }
  rewrite (bool_decide_eq_false_2 _ Hrf).
  destruct (decide (key = "gp")) as [->|Hgp].
  { rewrite bool_decide_eq_true_2 by done.
    intros ->%construct_kwargs. split; [done|]. split; [done|].
    by intros [?|?]. }
  rewrite (bool_decide_eq_false_2 _ Hgp).
  destruct (decide (key = "nn")) as [->|Hnn].
  { rewrite bool_decide_eq_true_2 by done.
    intros ->%nn_kwargs. split; [done|]. split; [by intros [?|?] | done]. }
  rewrite (bool_decide_eq_false_2 _ Hnn).
  destruct (decide (key = "mpn")) as [->|Hmpn].
  { rewrite bool_decide_eq_true_2 by done.
    intros ->%mpn_kwargs. split; [done|]. split; [by intros [?|?] | done]. }
  by rewrite (bool_decide_eq_false_2 _ Hmpn).
Qed.

End behaviour.

End FactoryBehaviour.

(** * The further properties on concrete inputs *)

Module BehaviourExamples.
Import Evaluate EvaluateFacts EvaluateBounds EvaluateShared.
Import Factory FactoryFacts FactoryBehaviour.

Local Abbreviation run := (@evaluate_predictions pyfloat unit float_eq0 float_truthy NaN).

(** A target row that is too short. *)
Lemma filter_phase_bounds_witness :
  readable [[f1_0]] [[]] 0 0 = false
  ∧ run [[f1_0]] [[]] 1 count_metric "regression" None = ([], Raise IndexError).
Proof.
  split; [reflexivity|].
  apply (proj2 (filter_phase_bounds float_eq0 float_truthy NaN
                  [[f1_0]] [[]] 1) 0 0 count_metric "regression" None).
  - simpl. lia.
  - simpl. lia.
  - reflexivity.
Defined.

(** Two predictions, one row of targets. *)
Lemma missing_target_rows_raise_witness :
  run [[f1_0]; [f2_0]] [[Some f1_0]] 1 count_metric "regression" None
  = ([], Raise IndexError).
Proof.
  apply (missing_target_rows_raise float_eq0 float_truthy NaN
           [[f1_0]; [f2_0]] [[Some f1_0]] 1 count_metric "regression" None).
  - lia.
  - simpl. lia.
Defined.

(** Two tasks, the second without a valid target: two equal scores. *)
Lemma result_uniform_witness :
  (run [[f1_0; f2_0]] [[Some f1_0; None]] 2 count_metric "regression" None).2
  = Ok [f1_0; f1_0]
  ∧ ([f1_0; f1_0] = [] ∨ ∃ v, [f1_0; f1_0] = replicate (Z.to_nat 2) v).
Proof.
  split; [reflexivity|].
  apply (result_uniform float_eq0 float_truthy NaN
           [[f1_0; f2_0]] [[Some f1_0; None]] 2 count_metric "regression"
           (@None unit) [f1_0; f1_0]).
  reflexivity.
Defined.

(** The call of the metric in the same run. *)
Lemma metric_call_discipline_witness :
  [f1_0] ≠ [] ∧ length [f1_0] = length [f1_0].
Proof.
  destruct (metric_call_discipline float_eq0 float_truthy NaN
              [[f1_0; f2_0]] [[Some f1_0; None]] 2 count_metric "regression"
              (@None unit) [f1_0] [f1_0]) as (Hne & Hlen & _).
  - vm_compute. left.
  - split; [exact Hne | exact Hlen].
Defined.

(** The warning of a classification run whose targets are all zeros. *)
Lemma trace_discipline_witness :
  (∃ ts ps, @Print pyfloat unit warn_targets = MetricCall ts ps)
  ∨ ("classification" = "classification"
     ∧ (@Print pyfloat unit warn_targets = info (@None unit) warn_targets
        ∨ @Print pyfloat unit warn_targets = info (@None unit) warn_preds)).
Proof.
  apply (proj1 (trace_discipline float_eq0 float_truthy NaN
                  [[f0_5]] [[Some f0_0]] 1 count_metric "classification"
                  (@None unit)) (@Print pyfloat unit warn_targets)).
  vm_compute. left.
Defined.

(** A metric that raises. *)
Lemma failure_provenance_witness :
  let failing := λ (_ _ : list pyfloat), @Raise pyfloat (Exception "no score") in
  (run [[f1_0]] [[Some f1_0]] 1 failing "regression" None).2
  = Raise (Exception "no score")
  ∧ ((Exception "no score" = IndexError
      ∧ filter_phase [[f1_0]] [[Some f1_0]] 1 = Raise IndexError
      ∧ (run [[f1_0]] [[Some f1_0]] 1 failing "regression" None).1 = [])
     ∨ ∃ ts ps,
         failing ts ps = Raise (Exception "no score")
         ∧ (run [[f1_0]] [[Some f1_0]] 1 failing "regression" None).1
           = [MetricCall ts ps]).
Proof.
  intros failing. split; [reflexivity|].
  apply (failure_provenance float_eq0 float_truthy NaN
           [[f1_0]] [[Some f1_0]] 1 failing "regression" (@None unit)
           (Exception "no score")).
  reflexivity.
Defined.

(** Classification on two tasks whose joint lists are not degenerate. *)
Lemma classification_joint_guard_witness :
  let P := [[f0_5; f0_5]; [f0_0; f0_5]] in
  let G := [[Some f0_0; Some f1_0]; [Some f0_0; Some f0_0]] in
  let ts := [f0_0; f0_0; f1_0; f0_0] in
  let ps := [f0_5; f0_0; f0_5; f0_5] in
  run P G 2 count_metric "classification" None
  = ([MetricCall ts ps; MetricCall ts ps], Ok [Finite 4 0; Finite 4 0]).
Proof.
  intros P G ts ps.
  assert (HP : shape 2 2 P) by (split; [reflexivity | repeat constructor]).
  assert (HG : shape 2 2 G) by (split; [reflexivity | repeat constructor]).
  destruct (classification_joint_guard (Logger:=unit) float_eq0 float_truthy
              NaN P G 2 2 count_metric None ltac:(lia) ltac:(lia) HP HG)
    as (_ & _ & Hscore).
  apply Hscore; reflexivity.
Defined.

(** One task of classification whose targets are all zeros. *)
Lemma single_task_evaluation_witness :
  run [[f0_5]; [f0_0]] [[Some f0_0]; [Some f0_0]] 1 count_metric
    "classification" None
  = ([Print warn_targets], Ok [NaN]).
Proof.
  assert (HP : shape 2 1 [[f0_5]; [f0_0]])
    by (split; [reflexivity | repeat constructor]).
  assert (HG : shape 2 1 [[Some f0_0]; [Some f0_0]])
    by (split; [reflexivity | repeat constructor]).
  destruct (single_task_evaluation (Logger:=unit) float_eq0 float_truthy NaN
              [[f0_5]; [f0_0]] [[Some f0_0]; [Some f0_0]] 2 count_metric
              "classification" None ltac:(lia) HP HG) as (Htargets & _).
  apply Htargets; reflexivity.
Defined.

(** An unknown key. *)
Lemma model_failure_provenance_witness :
  let init := λ (_ : model_class) (_ : @kwargs nat), @None exn in
  let k := {| kw_conf_method := None; kw_other := ∅ |} in
  model init "svm" k
  = Raise (NotImplementedError ("Unrecognized model: " +:+ quoted "svm"))
  ∧ (NotImplementedError ("Unrecognized model: " +:+ quoted "svm")
     = NotImplementedError ("Unrecognized model: " +:+ quoted "svm")
     ∨ (∃ c, kw_conf_method k = Some (Some c)
             ∧ (("svm" = "nn"
                 ∧ NotImplementedError ("Unrecognized model: " +:+ quoted "svm")
                   = NotImplementedError
                       ("Unrecognized NN confidence method: " +:+ quoted c))
                ∨ ("svm" = "mpn"
                   ∧ NotImplementedError ("Unrecognized model: " +:+ quoted "svm")
                     = NotImplementedError
                         ("Unrecognized MPN confidence method: " +:+ quoted c))))
     ∨ (∃ cls k', init cls k'
                  = Some (NotImplementedError
                            ("Unrecognized model: " +:+ quoted "svm")))).
Proof.
  intros init k. split; [reflexivity|].
  apply (model_failure_provenance init "svm" k). reflexivity.
Defined.

(** A dropout class whose constructor raises [KeyError]. *)
Lemma constructor_keyerror_rewrapped_witness :
  let init := λ (cls : model_class) (_ : @kwargs nat),
    match cls with NNDropoutModel => Some KeyError | _ => None end in
  nn init (Some "dropout") ∅
  = Raise (NotImplementedError
             ("Unrecognized NN confidence method: " +:+ quoted "dropout")).
Proof.
  intros init.
  apply (proj1 (constructor_keyerror_rewrapped init ∅)
           "dropout" NNDropoutModel KeyError); reflexivity.
Defined.

(** [model("nn", conf_method="mve")] with constructors that complete. *)
Lemma keywords_forwarded_witness :
  let init := λ (_ : model_class) (_ : @kwargs nat), @None exn in
  let k := {| kw_conf_method := Some (Some "mve"); kw_other := ∅ |} in
  let m := {| class_of := NNTwoOutputModel; init_kwargs := k |} in
  model init "nn" k = Ok m
  ∧ kw_other (init_kwargs m) = kw_other k.
Proof.
  intros init k m. split; [reflexivity|].
  apply (keywords_forwarded init "nn" k m). reflexivity.
Defined.

End BehaviourExamples.
